(** * The connection broker of the WFC server (main.go)

    A shallow embedding of the front process of the broker: the shared
    variables [connections], [rpcMutex], [rpcBusyCount] and [rpcClient], the
    goroutines [frontendListen], [handleConnection], [waitForBackend], the
    RPC methods served by the front ([RPCFrontendPacket]) and the start-up
    code of both processes.

    Goroutines are resumable machines.  A machine is parked at a blocking
    call (a mutex acquisition, a socket read, an outbound RPC, an accept);
    one step consumes the result of that call and runs the code up to the
    next blocking call.  Steps of different goroutines interleave, which is
    the granularity at which the Go scheduler can be observed through the
    shared variables, since all of them are accessed under [rpcMutex]. *)

From Stdlib Require Import ZArith String Ascii List Sorted Lia Bool.
From stdpp Require Import base option list gmap strings.

Local Open Scope string_scope.
Local Open Scope list_scope.
Local Open Scope Z_scope.

(** ** Go base types *)

Definition uint64_modulus : Z := 2 ^ 64.

(** [count++] on a [uint64]. *)
Definition uint64_incr (count : Z) : Z := (count + 1) mod uint64_modulus.

(** [strings.Contains(s, substr)]. *)
Fixpoint Contains (s substr : string) : bool :=
  String.prefix substr s ||
  match s with
  | EmptyString => false
  | String _ s' => Contains s' substr
  end.

(** Errors are compared by identity in the source ([err == rpc.ErrShutdown]):
    the two sentinels are constructors of their own, every other error value
    only carries its message. *)
Inductive error : Type :=
| ErrShutdown                 (* net/rpc: rpc.ErrShutdown *)
| ErrBadIndex                 (* main.go:400 *)
| ErrOther (msg : string).

Definition Error (e : error) : string :=
  match e with
  | ErrShutdown => "connection is shut down"
  | ErrBadIndex => "incorrect connection index"
  | ErrOther msg => msg
  end.

#[global] Instance error_eq_dec : EqDecision error.
Proof. solve_decision. Defined.

(** A [net.Conn] is known by its identity only. *)
Definition conn : Type := nat.

Record serverInfo : Type := mkServerInfo {
  rpcName : string;
  protocol : string;
  port : Z
}.

(** The envelope sent from the front to the back (main.go:48). *)
Module RPCPacket.
Record t : Type := mk {
  Server : string;
  Index : Z;
  Address : string;
  Data : list Byte.byte
}.
End RPCPacket.

(** ** Observable actions *)

Inductive event : Type :=
| ELock | EUnlock                                   (* rpcMutex *)
| EAdd (delta : Z) | EDone | EWait                  (* rpcBusyCount *)
| ELoad (server : string) (index : Z) (found : option conn)
| EStore (server : string) (index : Z) (c : conn)
| EDelete (server : string) (index : Z)             (* connections *)
| ECall (serviceMethod : string) (args : option RPCPacket.t)
| EClientSet | EClientClose                         (* rpcClient *)
| EListen (address : string)
| EConnWrite (c : conn) (data : list Byte.byte)
| EConnClose (c : conn)
| ESetKeepAlive (c : conn)
| ELog (level : string) (msg : string)
| EGo (f : string)
| EExec (args : list string)
| EExit (code : Z)
| EPanic (msg : string).

(** ** Shared variables of the front (main.go:181-188) *)

Inductive client : Type := ClientNil | ClientOpen | ClientClosed.

Record front : Type := mkFront {
  connections : gmap string (gmap Z conn);
  rpcMutex : bool;              (* true: locked *)
  rpcBusyCount : Z;             (* counter of the WaitGroup *)
  rpcClient : client
}.

Definition set_connections (f : gmap string (gmap Z conn) -> gmap string (gmap Z conn))
    (st : front) : front :=
  mkFront (f (connections st)) (rpcMutex st) (rpcBusyCount st) (rpcClient st).

Definition set_rpcMutex (b : bool) (st : front) : front :=
  mkFront (connections st) b (rpcBusyCount st) (rpcClient st).

Definition set_rpcBusyCount (n : Z) (st : front) : front :=
  mkFront (connections st) (rpcMutex st) n (rpcClient st).

Definition set_rpcClient (c : client) (st : front) : front :=
  mkFront (connections st) (rpcMutex st) (rpcBusyCount st) c.

(** ** The monad of one step

    A step starts in a state, ends in a state and leaves a trace.  It is
    [Blocked] when the call it is parked at cannot return in this state, and
    a [Crash] ends the whole process ([os.Exit], or a run-time panic, for
    which the Go runtime exits with status 2). *)

Inductive result (A : Type) : Type :=
| Ok (a : A)
| Blocked
| Crash (code : Z).
Arguments Ok {A} a.
Arguments Blocked {A}.
Arguments Crash {A} code.

Definition M (S A : Type) : Type := S -> result A * S * list event.

#[global] Instance M_ret {S} : MRet (M S) := fun A a st => (Ok a, st, []).

#[global] Instance M_bind {S} : MBind (M S) := fun A B k m st =>
  match m st with
  | (Ok a, st1, t1) => let '(r, st2, t2) := k a st1 in (r, st2, t1 ++ t2)
  | (Blocked, st1, t1) => (Blocked, st1, t1)
  | (Crash code, st1, t1) => (Crash code, st1, t1)
  end.

Definition emit {S} (e : event) : M S unit := fun st => (Ok tt, st, [e]).

Definition blocked {S A} : M S A := fun st => (Blocked, st, []).

Definition os_Exit {S A} (code : Z) : M S A := fun st => (Crash code, st, [EExit code]).

Definition panic {S A} (msg : string) : M S A := fun st => (Crash 2, st, [EPanic msg]).

Definition logging (level msg : string) {S} : M S unit := emit (ELog level msg).

(** [rpcMutex.Lock()] returns only when the mutex is free. *)
Definition rpcMutex_Lock : M front unit := fun st =>
  if rpcMutex st then (Blocked, st, []) else (Ok tt, set_rpcMutex true st, [ELock]).

(** [rpcMutex.Unlock()]; unlocking a free mutex is a fatal error of the runtime. *)
Definition rpcMutex_Unlock : M front unit := fun st =>
  if rpcMutex st then (Ok tt, set_rpcMutex false st, [EUnlock])
  else (Crash 2, st, [EPanic "sync: unlock of unlocked mutex"]).

Definition rpcBusyCount_Add (delta : Z) : M front unit := fun st =>
  if rpcBusyCount st + delta <? 0 then (Crash 2, st, [EPanic "sync: negative WaitGroup counter"])
  else (Ok tt, set_rpcBusyCount (rpcBusyCount st + delta) st, [EAdd delta]).

Definition rpcBusyCount_Done : M front unit := fun st =>
  if rpcBusyCount st - 1 <? 0 then (Crash 2, st, [EPanic "sync: negative WaitGroup counter"])
  else (Ok tt, set_rpcBusyCount (rpcBusyCount st - 1) st, [EDone]).

(** [rpcBusyCount.Wait()] returns only when the counter is zero. *)
Definition rpcBusyCount_Wait : M front unit := fun st =>
  if rpcBusyCount st =? 0 then (Ok tt, st, [EWait]) else (Blocked, st, []).

(** [connections[server][index]]: reading a missing outer key gives the nil
    map, and reading the nil map gives "not found". *)
Definition lookup_conn (m : gmap string (gmap Z conn)) (server : string) (index : Z)
    : option conn :=
  match m !! server with
  | Some inner => inner !! index
  | None => None
  end.

Definition connections_load (server : string) (index : Z) : M front (option conn) := fun st =>
  let found := lookup_conn (connections st) server index in
  (Ok found, st, [ELoad server index found]).

(** [connections[server][index] = c]: assignment to an entry of the nil map panics. *)
Definition connections_store (server : string) (index : Z) (c : conn) : M front unit := fun st =>
  match connections st !! server with
  | Some inner =>
      (Ok tt, set_connections (insert server (<[index := c]> inner)) st, [EStore server index c])
  | None => (Crash 2, st, [EPanic "assignment to entry in nil map"])
  end.

(** [delete(connections[server], index)]: a no-op on the nil map. *)
Definition connections_delete (server : string) (index : Z) : M front unit := fun st =>
  match connections st !! server with
  | Some inner =>
      (Ok tt, set_connections (insert server (delete index inner)) st, [EDelete server index])
  | None => (Ok tt, st, [EDelete server index])
  end.

(** The request half of [rpcClient.Call]: a nil [*rpc.Client] is dereferenced. *)
Definition rpcClient_Call (serviceMethod : string) (args : option RPCPacket.t) : M front unit :=
  fun st =>
    match rpcClient st with
    | ClientNil => (Crash 2, st, [EPanic "invalid memory address or nil pointer dereference"])
    | _ => (Ok tt, st, [ECall serviceMethod args])
    end.

(** [rpcClient = client], written by the holder of the mutex. *)
Definition rpcClient_set : M front unit := fun st =>
  (Ok tt, set_rpcClient ClientOpen st, [EClientSet]).

(** [connections[server] = map[uint64]net.Conn{}]. *)
Definition connections_init (server : string) : M front unit := fun st =>
  (Ok tt, set_connections (insert server ∅) st, []).

(** The request half of [rpcClient.Close]. *)
Definition rpcClient_Close : M front unit := fun st =>
  match rpcClient st with
  | ClientNil => (Crash 2, st, [EPanic "invalid memory address or nil pointer dereference"])
  | _ => (Ok tt, set_rpcClient ClientClosed st, [EClientClose])
  end.

(** What a blocking call hands back when it returns. *)
Inductive response : Type :=
| Resume                                             (* the goroutine is scheduled *)
| CallRet (err : option error)                       (* rpcClient.Call *)
| ReadRet (avail : list Byte.byte) (err : option error)   (* conn.Read *)
| ListenRet (err : option error)                     (* net.Listen *)
| AcceptRet (c : conn) (addr : string) (err keepalive : option error)  (* l.Accept, SetKeepAlive *)
| DialRet (err : option error)                       (* rpc.Dial *)
| CloseRet (err : option error)                      (* rpcClient.Close *)
| ExecRet (exe start : option error).                (* os.Executable, cmd.Start *)

(** Runs a machine over the results its blocking calls return, one step each. *)
Fixpoint run {S P} (step : P -> response -> M S P) (p : P) (rs : list response) : M S P :=
  match rs with
  | [] => mret p
  | r :: rs' => p' ← step p r; run step p' rs'
  end.

(** ** The relay task: handleConnection (main.go:333-398) *)

(** [make([]byte, n)]. *)
Definition make_bytes (n : nat) : list Byte.byte := replicate n Byte.x00.

(** [conn.Read(buffer)] under the io.Reader contract: of the bytes the socket
    has, as many as fit are copied to the front of the buffer, and their
    number is returned. *)
Definition conn_Read (buffer avail : list Byte.byte) : Z * list Byte.byte :=
  let n := Nat.min (length buffer) (length avail) in
  (Z.of_nat n, take n avail ++ drop n buffer).

(** [buffer[:n]]. *)
Definition slice_to (buffer : list Byte.byte) (n : Z) : list Byte.byte :=
  take (Z.to_nat n) buffer.

Arguments make_bytes : simpl never.
Arguments conn_Read : simpl never.
Arguments slice_to : simpl never.

(** Where a relay task is parked. *)
Inductive relay_pc : Type :=
| AtOpenLock                                     (* rpcMutex.Lock(), line 336 *)
| InNewConnection                                (* rpcClient.Call, line 341 *)
| AtFailLock                                     (* rpcMutex.Lock(), line 348 *)
| InRead                                         (* conn.Read, line 356 *)
| AtForwardLock (n : Z) (buffer : list Byte.byte)  (* rpcMutex.Lock(), line 365 *)
| InHandlePacket                                 (* rpcClient.Call, line 370 *)
| AtCloseLock                                    (* rpcMutex.Lock(), line 383 *)
| InCloseConnection                              (* rpcClient.Call, line 388 *)
| Returned.

(** [addr] is [conn.RemoteAddr().String()].  The deferred [conn.Close()] runs
    where the function returns, and does not run where the process exits. *)
Definition handleConnection (server : serverInfo) (c : conn) (addr : string) (index : Z)
    (p : relay_pc) (resp : response) : M front relay_pc :=
  let packet data := RPCPacket.mk (rpcName server) index addr data in
  match p, resp with
  | AtOpenLock, Resume =>
      rpcMutex_Lock ;;
      rpcBusyCount_Add 1 ;;
      connections_store (rpcName server) index c ;;
      rpcMutex_Unlock ;;
      rpcClient_Call "RPCPacket.NewConnection" (Some (packet [])) ;;
      mret InNewConnection
  | InNewConnection, CallRet err =>
      rpcBusyCount_Done ;;
      match err with
      | Some _ =>
          logging "Error" "Failed to forward new connection to backend:" ;;
          mret AtFailLock
      | None => mret InRead
      end
  | AtFailLock, Resume =>
      rpcMutex_Lock ;;
      connections_delete (rpcName server) index ;;
      rpcMutex_Unlock ;;
      emit (EConnClose c) ;;
      mret Returned
  | InRead, ReadRet avail err =>
      let '(n, buffer) := conn_Read (make_bytes 1024) avail in
      match err with
      | Some _ => mret AtCloseLock
      | None => if n =? 0 then mret InRead else mret (AtForwardLock n buffer)
      end
  | AtForwardLock n buffer, Resume =>
      rpcMutex_Lock ;;
      rpcBusyCount_Add 1 ;;
      rpcMutex_Unlock ;;
      rpcClient_Call "RPCPacket.HandlePacket" (Some (packet (slice_to buffer n))) ;;
      mret InHandlePacket
  | InHandlePacket, CallRet err =>
      rpcBusyCount_Done ;;
      match err with
      | Some e =>
          logging "Error" "Failed to forward packet to backend:" ;;
          if decide (e = ErrShutdown) then os_Exit 1 else mret AtCloseLock
      | None => mret InRead
      end
  | AtCloseLock, Resume =>
      rpcMutex_Lock ;;
      rpcBusyCount_Add 1 ;;
      connections_delete (rpcName server) index ;;
      rpcMutex_Unlock ;;
      rpcClient_Call "RPCPacket.CloseConnection" (Some (packet [])) ;;
      mret InCloseConnection
  | InCloseConnection, CallRet err =>
      rpcBusyCount_Done ;;
      match err with
      | Some e =>
          logging "Error" "Failed to forward close connection to backend:" ;;
          if decide (e = ErrShutdown) then os_Exit 1 else mret tt
      | None => mret tt
      end ;;
      emit (EConnClose c) ;;
      mret Returned
  | _, _ => blocked
  end.

(** ** RPC methods served by the front (main.go:403-460) *)

Module RPCFrontendPacket.
Record t : Type := mk {
  Server : string;
  Index : Z;
  Data : list Byte.byte
}.

(** [wr] is what [conn.Write] returns, should it be called.  The deferred
    unlock runs on both returns. *)
Definition SendPacket (args : t) (wr : option error) : M front (option error) :=
  rpcMutex_Lock ;;
  found ← connections_load (Server args) (Index args);
  match found with
  | None => rpcMutex_Unlock ;; mret (Some ErrBadIndex)
  | Some c =>
      emit (EConnWrite c (Data args)) ;;
      rpcMutex_Unlock ;;
      mret wr
  end.

(** [cr] is what [conn.Close] returns, should it be called. *)
Definition CloseConnection (args : t) (cr : option error) : M front (option error) :=
  rpcMutex_Lock ;;
  found ← connections_load (Server args) (Index args);
  match found with
  | None => rpcMutex_Unlock ;; mret (Some ErrBadIndex)
  | Some c =>
      connections_delete (Server args) (Index args) ;;
      emit (EConnClose c) ;;
      rpcMutex_Unlock ;;
      mret cr
  end.

(** Where a call of ShutdownBackend is parked; [SdReturned err] once it has
    returned [err]. *)
Inductive shutdown_pc : Type :=
| SdAtLock                    (* rpcMutex.Lock(), line 443 *)
| SdAtWait                    (* rpcBusyCount.Wait(), line 445 *)
| SdInShutdown                (* rpcClient.Call, line 447 *)
| SdInClose                   (* rpcClient.Close, line 452 *)
| SdReturned (err : option error).

Definition forcibly_closed : string :=
  "An existing connection was forcibly closed by the remote host.".

Definition ShutdownBackend (p : shutdown_pc) (resp : response) : M front shutdown_pc :=
  match p, resp with
  | SdAtLock, Resume =>
      rpcMutex_Lock ;;
      mret SdAtWait
  | SdAtWait, Resume =>
      rpcBusyCount_Wait ;;
      rpcClient_Call "RPCPacket.Shutdown" None ;;
      mret SdInShutdown
  | SdInShutdown, CallRet err =>
      match err with
      | Some e =>
          if negb (Contains (Error e) forcibly_closed)
          then logging "Error" "Failed to reload backend:"
          else mret tt
      | None => mret tt
      end ;;
      rpcClient_Close ;;
      mret SdInClose
  | SdInClose, CloseRet err =>
      match err with
      | Some _ => logging "Error" "Failed to close RPC client:"
      | None => mret tt
      end ;;
      emit (EGo "waitForBackend") ;;
      mret (SdReturned None)
  | _, _ => blocked
  end.
End RPCFrontendPacket.

(** ** The back process supervisor of the front (main.go:254-296) *)

(** Where a goroutine running startBackendProcess or waitForBackend is parked. *)
Inductive dialer_pc : Type :=
| InExec (reload wait : bool)   (* os.Executable and cmd.Start, lines 257-274 *)
| InDial                        (* rpc.Dial, line 289 *)
| DialerReturned.

(** Expects the RPC mutex to be locked. *)
Definition waitForBackend (resp : response) : M front dialer_pc :=
  match resp with
  | DialRet None =>
      rpcClient_set ;;
      rpcMutex_Unlock ;;
      mret DialerReturned
  | DialRet (Some _) => mret InDial
  | _ => blocked
  end.

Definition startBackendProcess (reload wait : bool) (resp : response) : M front dialer_pc :=
  match resp with
  | ExecRet exe start =>
      match exe with
      | Some _ => logging "Error" "Failed to get executable path:" ;; os_Exit 1
      | None => mret tt
      end ;;
      logging "Info" "Running from" ;;
      emit (EExec (if reload then ["backend"; "reload"] else ["backend"])) ;;
      match start with
      | Some _ => logging "Error" "Failed to start backend process:" ;; os_Exit 1
      | None => mret tt
      end ;;
      if wait then mret InDial else mret DialerReturned
  | _ => blocked
  end.

Definition dialer_step (p : dialer_pc) (resp : response) : M front dialer_pc :=
  match p with
  | InExec reload wait => startBackendProcess reload wait resp
  | InDial => waitForBackend resp
  | DialerReturned => blocked
  end.

(** ReloadBackend (main.go:431-438): ShutdownBackend, then a new back process. *)
Inductive reload_pc : Type :=
| RlShutdown (p : RPCFrontendPacket.shutdown_pc)
| RlInExec
| RlReturned (err : option error).

Definition ReloadBackend (p : reload_pc) (resp : response) : M front reload_pc :=
  match p with
  | RlShutdown q =>
      q' ← RPCFrontendPacket.ShutdownBackend q resp;
      match q' with
      | RPCFrontendPacket.SdReturned _ => mret RlInExec
      | _ => mret (RlShutdown q')
      end
  | RlInExec =>
      startBackendProcess true false resp ;;
      mret (RlReturned None)
  | RlReturned _ => blocked
  end.

(** ** Listeners *)

(** Where the goroutine of a client-facing listener is parked. *)
Inductive listener_pc : Type :=
| InListen                      (* net.Listen, line 301 *)
| InAccept (count : Z)          (* l.Accept, line 313 *)
| ListenerReturned.

(** What [go handleConnection(server, conn, count)] starts. *)
Record relay : Type := mkRelay {
  r_server : serverInfo;
  r_conn : conn;
  r_addr : string;
  r_index : Z;
  r_pc : relay_pc
}.

(** frontendListen (main.go:299-330).  A step also yields the relay task it
    started, if any. *)
Definition frontendListen {S} (server : serverInfo) (p : listener_pc) (resp : response)
    : M S (listener_pc * option relay) :=
  match p, resp with
  | InListen, ListenRet err =>
      match err with
      | Some _ =>
          logging "Error" "Failed to listen on" ;;
          mret (ListenerReturned, None)
      | None =>
          logging "Notice" "Listening on" ;;
          mret (InAccept 0, None)
      end
  | InAccept count, AcceptRet c addr err keepalive =>
      match err with
      | Some _ =>
          logging "Error" "Failed to accept connection on" ;;
          mret (InAccept count, None)
      | None =>
          (if decide (protocol server = "tcp") then
             emit (ESetKeepAlive c) ;;
             match keepalive with
             | Some _ => logging "Warn" "Unable to set keepalive"
             | None => mret tt
             end
           else mret tt) ;;
          let count := uint64_incr count in
          emit (EGo "handleConnection") ;;
          mret (InAccept count, Some (mkRelay server c addr count AtOpenLock))
      end
  | _, _ => blocked
  end.

(** startFrontendServer (main.go:229-252), up to the start of its accept
    loop; [listen] is what [net.Listen] returns. *)
Definition startFrontendServer {S} (listen : option error) : M S unit :=
  emit (EListen "localhost:29998") ;;
  match listen with
  | Some _ => logging "Error" "Failed to listen on" ;; os_Exit 1
  | None => mret tt
  end ;;
  logging "Notice" "Listening on" ;;
  emit (EGo "accept").

(** backendMain (main.go:56-101), up to the start of the protocol servers. *)
Definition backendMain (reload : bool) (setOutput listen : option error) : M unit unit :=
  match setOutput with
  | Some _ => logging "Error" "SetOutput"
  | None => mret tt
  end ;;
  emit (EListen "localhost:29999") ;;
  match listen with
  | Some _ => logging "Error" "Failed to listen on" ;; os_Exit 1
  | None => mret tt
  end ;;
  emit (EGo "StartServer").

Definition servers : list serverInfo :=
  [ mkServerInfo "serverbrowser" "tcp" 28910;
    mkServerInfo "gpcm" "tcp" 29900;
    mkServerInfo "gpsp" "tcp" 29901;
    mkServerInfo "gamestats" "tcp" 29920 ].

(** The zero values of the package variables (main.go:181-188). *)
Definition front_zero : front := mkFront ∅ false 0 ClientNil.

(** frontendMain (main.go:191-226), up to [select {}]. *)
Definition frontendMain (skipBackend : bool) (setOutput listen : option error) : M front unit :=
  match setOutput with
  | Some _ => logging "Error" "SetOutput"
  | None => mret tt
  end ;;
  rpcMutex_Lock ;;
  startFrontendServer listen ;;
  (if negb skipBackend then emit (EGo "startBackendProcess") else emit (EGo "waitForBackend")) ;;
  foldr (fun server k =>
           connections_init (rpcName server) ;;
           emit (EGo "frontendListen") ;;
           k)
        (mret tt) servers.

(** ** The front process: all goroutines together *)

(** Who performed an action. *)
Inductive actor : Type :=
| AMain
| AListener (tag : string)      (* frontendListen *)
| ARelay (c : conn)             (* handleConnection *)
| ADialer (i : nat)             (* startBackendProcess, waitForBackend *)
| AServe                        (* SendPacket and CloseConnection, served to the back *)
| AAdmin (i : nat).             (* ShutdownBackend and ReloadBackend *)

Inductive admin_pc : Type :=
| AdShutdown (p : RPCFrontendPacket.shutdown_pc)
| AdReload (p : reload_pc).

Definition admin_step (p : admin_pc) (resp : response) : M front admin_pc :=
  match p with
  | AdShutdown q => q' ← RPCFrontendPacket.ShutdownBackend q resp; mret (AdShutdown q')
  | AdReload q => q' ← ReloadBackend q resp; mret (AdReload q')
  end.

Record system : Type := mkSystem {
  shared : front;
  listeners : gmap string (serverInfo * listener_pc);
  relays : gmap conn relay;
  dialers : list dialer_pc;
  admins : list admin_pc;
  halted : option Z;            (* exit status, once the process has ended *)
  history : list (actor * event)
}.

(** What the environment does next. *)
Inductive label : Type :=
| LListener (tag : string) (resp : response)
| LRelay (c : conn) (resp : response)
| LDialer (i : nat) (resp : response)
| LSendPacket (args : RPCFrontendPacket.t) (wr : option error)
| LCloseConnection (args : RPCFrontendPacket.t) (cr : option error)
| LAdminCall (reload : bool)    (* a ShutdownBackend or ReloadBackend request arrives *)
| LAdmin (i : nat) (resp : response).

(** The goroutines [go waitForBackend()] starts in a step. *)
Definition go_waitForBackend (t : list event) : list dialer_pc :=
  flat_map (fun e => match e with
                     | EGo f => if decide (f = "waitForBackend") then [InDial] else []
                     | _ => []
                     end) t.

Definition set_pc (p : relay_pc) (r : relay) : relay :=
  mkRelay (r_server r) (r_conn r) (r_addr r) (r_index r) p.

(** Records the outcome of a step of [a]; [k] stores the new local state. *)
Definition commit {P} (a : actor) (s : system) (out : result P * front * list event)
    (k : P -> list event -> system -> system) : option system :=
  let '(res, st, t) := out in
  let s' := mkSystem st (listeners s) (relays s) (dialers s) (admins s) (halted s)
                     (history s ++ map (pair a) t) in
  match res with
  | Ok p => Some (k p t s')
  | Blocked => None
  | Crash code =>
      Some (mkSystem st (listeners s) (relays s) (dialers s) (admins s) (Some code)
                     (history s'))
  end.

(** An accepted socket is a new [net.Conn]. *)
Definition fresh (s : system) (resp : response) : bool :=
  match resp with
  | AcceptRet c _ None _ => bool_decide (relays s !! c = None)
  | _ => true
  end.

Definition sys_step (s : system) (l : label) : option system :=
  match halted s with
  | Some _ => None
  | None =>
      match l with
      | LListener tag resp =>
          match listeners s !! tag with
          | Some (server, p) =>
              if fresh s resp then
                commit (AListener tag) s (frontendListen server p resp (shared s))
                  (fun '(p', started) _ s' =>
                     mkSystem (shared s') (<[tag := (server, p')]> (listeners s'))
                       (match started with
                        | Some r => <[r_conn r := r]> (relays s')
                        | None => relays s'
                        end)
                       (dialers s') (admins s') (halted s') (history s'))
              else None
          | None => None
          end
      | LRelay c resp =>
          match relays s !! c with
          | Some r =>
              commit (ARelay c) s
                (handleConnection (r_server r) (r_conn r) (r_addr r) (r_index r) (r_pc r) resp
                   (shared s))
                (fun p' _ s' =>
                   mkSystem (shared s') (listeners s') (<[c := set_pc p' r]> (relays s'))
                     (dialers s') (admins s') (halted s') (history s'))
          | None => None
          end
      | LDialer i resp =>
          match dialers s !! i with
          | Some p =>
              commit (ADialer i) s (dialer_step p resp (shared s))
                (fun p' _ s' =>
                   mkSystem (shared s') (listeners s') (relays s') (<[i := p']> (dialers s'))
                     (admins s') (halted s') (history s'))
          | None => None
          end
      | LSendPacket args wr =>
          commit AServe s (RPCFrontendPacket.SendPacket args wr (shared s)) (fun _ _ s' => s')
      | LCloseConnection args cr =>
          commit AServe s (RPCFrontendPacket.CloseConnection args cr (shared s))
            (fun _ _ s' => s')
      | LAdminCall reload =>
          let p := if reload then AdReload (RlShutdown RPCFrontendPacket.SdAtLock)
                   else AdShutdown RPCFrontendPacket.SdAtLock in
          Some (mkSystem (shared s) (listeners s) (relays s) (dialers s) (admins s ++ [p])
                  (halted s) (history s))
      | LAdmin i resp =>
          match admins s !! i with
          | Some p =>
              commit (AAdmin i) s (admin_step p resp (shared s))
                (fun p' t s' =>
                   mkSystem (shared s') (listeners s') (relays s')
                     (dialers s' ++ go_waitForBackend t) (<[i := p']> (admins s'))
                     (halted s') (history s'))
          | None => None
          end
      end
  end.

Fixpoint sys_run (s : system) (ls : list label) : option system :=
  match ls with
  | [] => Some s
  | l :: ls' =>
      match sys_step s l with
      | Some s' => sys_run s' ls'
      | None => None
      end
  end.

(** The front once frontendMain has reached [select {}] (or has exited). *)
Definition boot (skipBackend : bool) (setOutput listen : option error) : system :=
  let '(res, st, t) := frontendMain skipBackend setOutput listen front_zero in
  match res with
  | Ok _ =>
      mkSystem st (list_to_map (map (fun sv => (rpcName sv, (sv, InListen))) servers)) ∅
        [if skipBackend then InDial else InExec false true] [] None (map (pair AMain) t)
  | Blocked => mkSystem st ∅ ∅ [] [] None (map (pair AMain) t)
  | Crash code => mkSystem st ∅ ∅ [] [] (Some code) (map (pair AMain) t)
  end.

Definition reachable (s : system) : Prop :=
  exists skipBackend setOutput listen ls,
    sys_run (boot skipBackend setOutput listen) ls = Some s.

(** ** Observations on histories and traces *)

Definition is_close (c : conn) (e : event) : bool :=
  match e with
  | EConnClose c' => bool_decide (c' = c)
  | _ => false
  end.

Definition is_relay (c : conn) (a : actor) : bool :=
  match a with
  | ARelay c' => bool_decide (c' = c)
  | _ => false
  end.

Definition is_serve (a : actor) : bool :=
  match a with
  | AServe => true
  | _ => false
  end.

Fixpoint count {A} (f : A -> bool) (l : list A) : nat :=
  match l with
  | [] => 0%nat
  | x :: l' => ((if f x then 1 else 0) + count f l')%nat
  end.

(** How often [conn.Close()] was called on [c], by anyone, by its relay
    task, and by CloseConnection served to the back. *)
Definition closes (c : conn) (h : list (actor * event)) : nat :=
  count (fun ae => is_close c ae.2) h.

Definition relay_closes (c : conn) (h : list (actor * event)) : nat :=
  count (fun ae => is_relay c ae.1 && is_close c ae.2) h.

Definition serve_closes (c : conn) (h : list (actor * event)) : nat :=
  count (fun ae => is_serve ae.1 && is_close c ae.2) h.

(** Accesses to [connections] and socket writes, which the source performs
    under [rpcMutex]. *)
Definition touches_shared (e : event) : bool :=
  match e with
  | ELoad _ _ _ | EStore _ _ _ | EDelete _ _ | EConnWrite _ _ => true
  | _ => false
  end.

(** Every such access in [t] lies between a Lock and the next Unlock of [t];
    [held] tells whether the mutex is held where [t] starts. *)
Fixpoint under_mutex (held : bool) (t : list event) : bool :=
  match t with
  | [] => true
  | ELock :: t' => under_mutex true t'
  | EUnlock :: t' => under_mutex false t'
  | e :: t' => (negb (touches_shared e) || held) && under_mutex held t'
  end.

(** Actions on a socket or on the table that change it. *)
Definition is_effect (e : event) : bool :=
  match e with
  | EStore _ _ _ | EDelete _ _ | EConnWrite _ _ | EConnClose _ => true
  | _ => false
  end.

Definition is_exit (e : event) : bool :=
  match e with
  | EExit _ => true
  | _ => false
  end.

(** The outbound calls of a method in a trace. *)
Definition is_call (serviceMethod : string) (e : event) : bool :=
  match e with
  | ECall m _ => bool_decide (m = serviceMethod)
  | _ => false
  end.

(** The payloads of the HandlePacket calls of a trace, in order. *)
Fixpoint payloads (t : list event) : list (list Byte.byte) :=
  match t with
  | [] => []
  | ECall m (Some pkt) :: t' =>
      if decide (m = "RPCPacket.HandlePacket") then RPCPacket.Data pkt :: payloads t'
      else payloads t'
  | _ :: t' => payloads t'
  end.

(** What the successful non-empty reads of a relay task deliver, in order:
    of each, the bytes that fit the 1024-byte buffer. *)
Fixpoint chunks (rs : list response) : list (list Byte.byte) :=
  match rs with
  | [] => []
  | ReadRet avail None :: rs' =>
      match avail with
      | [] => chunks rs'
      | _ => take 1024 avail :: chunks rs'
      end
  | _ :: rs' => chunks rs'
  end.

(** The relay tasks a listener starts over the results of its calls. *)
Fixpoint started {S} (server : serverInfo) (p : listener_pc) (rs : list response) (st : S)
    : list relay :=
  match rs with
  | [] => []
  | r :: rs' =>
      match frontendListen server p r st with
      | (Ok (p', o), st', _) => option_list o ++ started server p' rs' st'
      | _ => []
      end
  end.

(** The counter of frontendListen after [k] accepted connections, which is
    the index given to the [k]-th of them: [count := 0], then [count++] for
    each. *)
Definition count_after (k : N) : Z := N.iter k uint64_incr 0.

(** ** Sample inputs *)

Definition gpcm : serverInfo := mkServerInfo "gpcm" "tcp" 29900.

(** A front whose back is up and which has no client. *)
Definition front_up : front :=
  mkFront (list_to_map (map (fun sv => (rpcName sv, ∅)) servers)) false 0 ClientOpen.

(** The CloseConnection calls a relay task parked at [p] still issues before
    it returns; unknown until NewConnection has returned. *)
Definition owed (p : relay_pc) : option nat :=
  match p with
  | AtOpenLock | InNewConnection => None
  | AtFailLock | InCloseConnection | Returned => Some 0%nat
  | InRead | AtForwardLock _ _ | InHandlePacket | AtCloseLock => Some 1%nat
  end.

(** The payload a relay task parked at [p] has read and not yet forwarded. *)
Definition pending (p : relay_pc) : list (list Byte.byte) :=
  match p with
  | AtForwardLock n buffer => [slice_to buffer n]
  | _ => []
  end.

(** No socket is closed in [t]. *)
Definition quiet (t : list event) : Prop := forall c, count (is_close c) t = 0%nat.

(** A computation that leaves the table as it is and closes no socket. *)
Definition harmless {A} (m : M front A) : Prop :=
  forall st res st1 t1,
    m st = (res, st1, t1) -> connections st1 = connections st /\ quiet t1.

(** What holds of the sockets in every state of the front.  [conn.Close()]
    is called by the relay task of the socket, once, when it returns, and by
    CloseConnection served to the back, at most once, on a socket it finds in
    the table; while the process runs, a socket in the table belongs to a
    relay task past its insertion, under the key of that task, and has not
    been closed by CloseConnection. *)
Record inv (s : system) : Prop := mkInv {
  inv_closes : forall c,
    closes c (history s) = (relay_closes c (history s) + serve_closes c (history s))%nat;
  inv_relay : forall c,
    relay_closes c (history s) =
      match relays s !! c with
      | Some r => match r_pc r with Returned => 1%nat | _ => 0%nat end
      | None => 0%nat
      end;
  inv_serve : forall c, (serve_closes c (history s) <= 1)%nat;
  inv_key : forall c r, relays s !! c = Some r -> r_conn r = c;
  inv_table : halted s = None ->
    forall tag idx c,
      lookup_conn (connections (shared s)) tag idx = Some c ->
      serve_closes c (history s) = 0%nat /\
      exists r, relays s !! c = Some r /\ rpcName (r_server r) = tag /\ r_index r = idx /\
                r_pc r <> AtOpenLock;
  inv_new : halted s = None ->
    forall c, serve_closes c (history s) <> 0%nat ->
      exists r, relays s !! c = Some r /\ r_pc r <> AtOpenLock
}.

(** The tags the front initialises. *)
Definition tags : list string := map rpcName servers.

(** The outer keys of the table are among the tags the front initialises. *)
Definition known_tags (s : system) : Prop :=
  forall tag, is_Some (connections (shared s) !! tag) -> tag ∈ tags.

(** A client of gpcm whose socket the back closes while its relay task is
    reading: the back is up, the listener accepts socket 7, NewConnection
    succeeds, the back calls CloseConnection(gpcm, 1), the pending read fails,
    and the relay task closes down. *)
Definition closed_by_back : list label :=
  [ LDialer 0 (ExecRet None None); LDialer 0 (DialRet None);
    LListener "gpcm" (ListenRet None);
    LListener "gpcm" (AcceptRet 7%nat "192.0.2.1:5000" None None);
    LRelay 7%nat Resume; LRelay 7%nat (CallRet None);
    LCloseConnection (RPCFrontendPacket.mk "gpcm" 1 []) None;
    LRelay 7%nat (ReadRet [] (Some (ErrOther "use of closed network connection")));
    LRelay 7%nat Resume; LRelay 7%nat (CallRet None) ].

(** The state a run from a cold start ends in. *)
Definition after (ls : list label) : system :=
  default (boot false None None) (sys_run (boot false None None) ls).

(** ** Phases of a relay task *)

(** The task is inside an outbound call. *)
Definition in_call (p : relay_pc) : bool :=
  match p with
  | InNewConnection | InHandlePacket | InCloseConnection => true
  | _ => false
  end.

(** The task is parked at an acquisition of the mutex. *)
Definition at_lock (p : relay_pc) : bool :=
  match p with
  | AtOpenLock | AtFailLock | AtForwardLock _ _ | AtCloseLock => true
  | _ => false
  end.

(** The task has stored its socket and not yet deleted its key. *)
Definition listed (p : relay_pc) : bool :=
  match p with
  | InNewConnection | AtFailLock | InRead | AtForwardLock _ _ | InHandlePacket
  | AtCloseLock => true
  | _ => false
  end.

(** The service methods a trace calls, in order. *)
Fixpoint methods (t : list event) : list string :=
  match t with
  | [] => []
  | ECall m _ :: t' => m :: methods t'
  | _ :: t' => methods t'
  end.

(** What the back has been told of a connection. *)
Inductive announced : Type := Unannounced | Announced | Retired.

(** NewConnection, then any number of HandlePacket, then at most one
    CloseConnection, and nothing else. *)
Fixpoint ordered (a : announced) (ms : list string) : bool :=
  match ms with
  | [] => true
  | m :: ms' =>
      match a with
      | Unannounced => bool_decide (m = "RPCPacket.NewConnection") && ordered Announced ms'
      | Announced =>
          if decide (m = "RPCPacket.HandlePacket") then ordered Announced ms'
          else bool_decide (m = "RPCPacket.CloseConnection") && ordered Retired ms'
      | Retired => false
      end
  end.

Definition announced_at (p : relay_pc) : announced :=
  match p with
  | AtOpenLock => Unannounced
  | InNewConnection | InRead | AtForwardLock _ _ | InHandlePacket | AtCloseLock => Announced
  | AtFailLock | InCloseConnection | Returned => Retired
  end.

(** The sockets a listener accepts over the results of its accept calls. *)
Fixpoint accepted (rs : list response) : list (conn * string) :=
  match rs with
  | AcceptRet c addr None _ :: rs' => (c, addr) :: accepted rs'
  | AcceptRet _ _ (Some _) _ :: rs' => accepted rs'
  | _ => []
  end.

(** ** Synchronisation state of the front *)

(** The outbound calls of relay tasks that are in flight. *)
Definition inflight (m : gmap conn relay) : Z :=
  map_fold (fun _ r n => n + Z.b2z (in_call (r_pc r))) 0 m.

(** A goroutine that will end in waitForBackend unlocking the mutex. *)
Definition pending_dial (p : dialer_pc) : bool :=
  match p with
  | InDial | InExec _ true => true
  | _ => false
  end.

Definition shutdown_holds (p : RPCFrontendPacket.shutdown_pc) : bool :=
  match p with
  | RPCFrontendPacket.SdAtWait | RPCFrontendPacket.SdInShutdown
  | RPCFrontendPacket.SdInClose => true
  | _ => false
  end.

Definition shutdown_past_wait (p : RPCFrontendPacket.shutdown_pc) : bool :=
  match p with
  | RPCFrontendPacket.SdInShutdown | RPCFrontendPacket.SdInClose => true
  | _ => false
  end.

(** The shutdown a ShutdownBackend or ReloadBackend call is running, if it
    still is. *)
Definition shutdown_of (p : admin_pc) : option RPCFrontendPacket.shutdown_pc :=
  match p with
  | AdShutdown q => Some q
  | AdReload (RlShutdown q) => Some q
  | AdReload _ => None
  end.

(** An administrative call that has locked the mutex and not yet handed it
    to waitForBackend. *)
Definition holds_mutex (p : admin_pc) : bool :=
  match shutdown_of p with
  | Some q => shutdown_holds q
  | None => false
  end.

(** An administrative call that has passed the wait on the busy counter and
    has not yet closed the RPC handle. *)
Definition past_wait (p : admin_pc) : bool :=
  match shutdown_of p with
  | Some q => shutdown_past_wait q
  | None => false
  end.

(** Who is to unlock the mutex: pending dialers and administrative calls. *)
Definition owners (s : system) : Z :=
  Z.of_nat (count pending_dial (dialers s)) + Z.of_nat (count holds_mutex (admins s)).

(** What holds of the mutex and of the busy counter while the front runs:
    the counter is the number of outbound calls in flight; the mutex is held
    between steps exactly when a dialer or an administrative call owns it;
    and after an administrative call has passed the wait, no outbound call is
    in flight. *)
Record sync_inv (s : system) : Prop := mkSyncInv {
  sync_busy : rpcBusyCount (shared s) = inflight (relays s);
  sync_mutex : Z.b2z (rpcMutex (shared s)) = owners s;
  sync_drain : (exists p, p ∈ admins s /\ past_wait p = true) -> inflight (relays s) = 0
}.

(** While the front runs, the sockets in the table belong to relay tasks
    between their insertion and their removal. *)
Definition table_inv (s : system) : Prop :=
  forall tag idx c,
    lookup_conn (connections (shared s)) tag idx = Some c ->
    exists r, relays s !! c = Some r /\ listed (r_pc r) = true.

(** ** The command line (main.go:30-46, 463-505) *)



(** What the command-line client does. *)
Inductive cmd_event : Type :=
| CPrint (msg : string)
| CDial (address : string)
| CCall (serviceMethod : string)
| CClose.

(** handleCommand; [prog] is [os.Args[0]], [dial] is what [rpc.Dial] returns
    and [call] what [client.Call] returns, should they be called.  The
    deferred [client.Close()] runs on every return after a successful dial. *)
Definition handleCommand (prog : string) (args : list string) (dial call : option error)
    : list cmd_event :=
  match args with
  | a0 :: a1 :: rest =>
      if decide (a0 = "f" \/ a0 = "b") then
        CDial (if decide (a0 = "f") then "localhost:29998" else "localhost:29999") ::
        match dial with
        | Some e => [CPrint ("Failed to connect to RPC server: " +:+ Error e)]
        | None =>
            (if decide (a0 = "b") then
               [CPrint ("Unknown backend command: '" +:+ a1 +:+ "'")]
             else if decide (a1 = "backend") then
               CCall (match rest with
                      | a2 :: _ =>
                          if decide (a2 = "shutdown") then "RPCFrontendPacket.ShutdownBackend"
                          else "RPCFrontendPacket.ReloadBackend"
                      | [] => "RPCFrontendPacket.ReloadBackend"
                      end) ::
               match call with
               | Some e => [CPrint ("Failed to send command: " +:+ Error e)]
               | None => []
               end
             else [CPrint ("Unknown frontend command: '" +:+ a1 +:+ "'")])
            ++ [CClose]
        end
      else
        [CPrint ("Unknown command type: '" +:+ a0 +:+
                 "', please supply 'f' or 'b' (for frontend or backend)")]
  | _ => [CPrint ("Usage: " +:+ prog +:+ " cmd <f|b> <command...>")]
  end.

Definition is_ccall (e : cmd_event) : bool :=
  match e with
  | CCall _ => true
  | _ => false
  end.

Definition is_cclose (e : cmd_event) : bool :=
  match e with
  | CClose => true
  | _ => false
  end.

(** ** The RPC methods served by the back (main.go:103-167) *)

(** A call into a protocol module. *)
Inductive module_call : Type :=
| MNewConnection (module : string) (index : Z) (address : string)
| MHandlePacket (module : string) (index : Z) (data : list Byte.byte) (address : option string)
| MCloseConnection (module : string) (index : Z)
| MShutdown (module : string).

(** RPCPacket.NewConnection: the module calls it makes and the error it returns. *)
Definition RPCPacket_NewConnection (args : RPCPacket.t) : list module_call * option error :=
  let server := RPCPacket.Server args in
  ((if decide (server = "serverbrowser") then
      [MNewConnection "serverbrowser" (RPCPacket.Index args) (RPCPacket.Address args)]
    else if decide (server = "gpcm") then
      [MNewConnection "gpcm" (RPCPacket.Index args) (RPCPacket.Address args)]
    else if decide (server = "gpsp") then
      [MNewConnection "gpsp" (RPCPacket.Index args) (RPCPacket.Address args)]
    else if decide (server = "gamestats") then
      [MNewConnection "gamestats" (RPCPacket.Index args) (RPCPacket.Address args)]
    else []), None).

(** RPCPacket.HandlePacket: only serverbrowser is given the address. *)
Definition RPCPacket_HandlePacket (args : RPCPacket.t) : list module_call * option error :=
  let server := RPCPacket.Server args in
  ((if decide (server = "serverbrowser") then
      [MHandlePacket "serverbrowser" (RPCPacket.Index args) (RPCPacket.Data args)
         (Some (RPCPacket.Address args))]
    else if decide (server = "gpcm") then
      [MHandlePacket "gpcm" (RPCPacket.Index args) (RPCPacket.Data args) None]
    else if decide (server = "gpsp") then
      [MHandlePacket "gpsp" (RPCPacket.Index args) (RPCPacket.Data args) None]
    else if decide (server = "gamestats") then
      [MHandlePacket "gamestats" (RPCPacket.Index args) (RPCPacket.Data args) None]
    else []), None).

Definition RPCPacket_CloseConnection (args : RPCPacket.t) : list module_call * option error :=
  let server := RPCPacket.Server args in
  ((if decide (server = "serverbrowser") then
      [MCloseConnection "serverbrowser" (RPCPacket.Index args)]
    else if decide (server = "gpcm") then [MCloseConnection "gpcm" (RPCPacket.Index args)]
    else if decide (server = "gpsp") then [MCloseConnection "gpsp" (RPCPacket.Index args)]
    else if decide (server = "gamestats") then
      [MCloseConnection "gamestats" (RPCPacket.Index args)]
    else []), None).

(** How net/rpc routes a call of the front to the methods above. *)
Definition back_serve (e : event) : option (list module_call * option error) :=
  match e with
  | ECall m (Some args) =>
      if decide (m = "RPCPacket.NewConnection") then Some (RPCPacket_NewConnection args)
      else if decide (m = "RPCPacket.HandlePacket") then Some (RPCPacket_HandlePacket args)
      else if decide (m = "RPCPacket.CloseConnection") then Some (RPCPacket_CloseConnection args)
      else None
  | _ => None
  end.

(** What a protocol module is asked for a connection. *)
Definition module_of (mc : module_call) : string * Z :=
  match mc with
  | MNewConnection m i _ | MHandlePacket m i _ _ | MCloseConnection m i => (m, i)
  | MShutdown m => (m, 0)
  end.

(** The task has deleted its key. *)
Definition removed (p : relay_pc) : bool :=
  match p with
  | InCloseConnection | Returned => true
  | _ => false
  end.

Definition is_cdial (e : cmd_event) : bool :=
  match e with
  | CDial _ => true
  | _ => false
  end.


(** An outbound call of the relay task of ([server], [index], [addr]): one of
    the three methods, with the envelope of that connection. *)
Definition relay_call (server : serverInfo) (addr : string) (index : Z) (e : event) : Prop :=
  match e with
  | ECall m a =>
      (m = "RPCPacket.NewConnection" \/ m = "RPCPacket.HandlePacket" \/
       m = "RPCPacket.CloseConnection") /\
      exists data, a = Some (RPCPacket.mk (rpcName server) index addr data)
  | _ => True
  end.

(** ** More sample runs *)

(** A client of gpcm whose NewConnection is in flight. *)
Definition one_call : list label :=
  [ LDialer 0 (ExecRet None None); LDialer 0 (DialRet None);
    LListener "gpcm" (ListenRet None);
    LListener "gpcm" (AcceptRet 7%nat "192.0.2.1:5000" None None);
    LRelay 7%nat Resume ].


(** The service methods the relay task of [c] has called, in order. *)
Fixpoint relay_methods (c : conn) (h : list (actor * event)) : list string :=
  match h with
  | [] => []
  | (a, e) :: h' => (if is_relay c a then methods [e] else []) ++ relay_methods c h'
  end.

(** The calls of every relay task so far are in order and can be continued
    in order from where the task is parked. *)
Definition order_inv (s : system) : Prop :=
  forall c,
    match relays s !! c with
    | Some r =>
        forall ms, ordered (announced_at (r_pc r)) ms = true ->
                   ordered Unannounced (relay_methods c (history s) ++ ms) = true
    | None => relay_methods c (history s) = []
    end.

(** Before the first dial has succeeded: a dialer is pending, every relay
    task is at its first lock, every administrative call at its lock, and
    nobody has called the back. *)
Definition cold_inv (s : system) : Prop :=
  rpcClient (shared s) = ClientNil ->
  (exists p, p ∈ dialers s /\ pending_dial p = true) /\
  (forall c r, relays s !! c = Some r -> r_pc r = AtOpenLock) /\
  (forall p, p ∈ admins s -> shutdown_of p = Some RPCFrontendPacket.SdAtLock) /\
  methods (map snd (history s)) = [].

(** Two clients accepted before the back is reachable. *)
Definition early_clients : list label :=
  [ LListener "gpcm" (ListenRet None);
    LListener "gpcm" (AcceptRet 7%nat "192.0.2.1:5000" None None);
    LDialer 0 (ExecRet None None);
    LDialer 0 (DialRet (Some (ErrOther "connection refused")));
    LListener "gpcm" (AcceptRet 8%nat "192.0.2.2:5000" None None) ].

(** A computation after which the RPC handle is nil only if it was nil before. *)
Definition keeps_client {A} (m : M front A) : Prop :=
  forall st res st1 t1,
    m st = (res, st1, t1) -> rpcClient st1 = ClientNil -> rpcClient st = ClientNil.


(** * Proofs *)

Ltac unfold_M :=
  unfold mbind, M_bind, mret, M_ret, emit, logging, blocked, os_Exit, panic,
    rpcMutex_Lock, rpcMutex_Unlock, rpcBusyCount_Add, rpcBusyCount_Done, rpcBusyCount_Wait,
    connections_load, connections_store, connections_delete, connections_init,
    rpcClient_Call, rpcClient_Close, rpcClient_set in *.

Lemma count_app {A} (f : A -> bool) (l1 l2 : list A) :
  count f (l1 ++ l2) = (count f l1 + count f l2)%nat.
Proof. induction l1 as [|x l1 IH]; simpl; [done | rewrite IH; lia]. Qed.

Lemma run_cons {S P} (step : P -> response -> M S P) p r rs st :
  run step p (r :: rs) st =
    match step p r st with
    | (Ok p', st1, t1) => let '(res, st2, t2) := run step p' rs st1 in (res, st2, t1 ++ t2)
    | (Blocked, st1, t1) => (Blocked, st1, t1)
    | (Crash code, st1, t1) => (Crash code, st1, t1)
    end.
Proof. reflexivity. Qed.

Lemma run_nil {S P} (step : P -> response -> M S P) p st : run step p [] st = (Ok p, st, []).
Proof. reflexivity. Qed.

(** Case analysis of one step of a machine: every branch the step can take,
    with the state conditions that select it. *)
Ltac break_match H :=
  repeat match type of H with
         | context [match ?x with _ => _ end] =>
             match x with
             | context [match _ with _ => _ end] => fail 1
             | _ => destruct x eqn:?; cbn in H
             end
         end.

Ltac relay_inv H :=
  match type of H with
  | handleConnection _ _ _ _ ?p ?resp ?st = _ =>
      try (is_var st; destruct st as [?cs ?mu ?busy ?cl]);
      unfold handleConnection in H; unfold_M;
      try (is_var p; destruct p); try (is_var resp; destruct resp);
      cbn in H; break_match H;
      try discriminate H; inversion H; subst; clear H
  end.

(** ** The close phase of a relay task *)

Section RelayTask.

Variables (server : serverInfo) (c : conn) (addr : string) (index : Z).

Lemma step_owed p resp st p' st' t k :
  handleConnection server c addr index p resp st = (Ok p', st', t) ->
  owed p = Some k ->
  owed p' = Some (k - count (is_call "RPCPacket.CloseConnection") t)%nat /\
  (count (is_call "RPCPacket.CloseConnection") t <= k)%nat.
Proof.
  intros H Hk. relay_inv H; cbn in Hk; inversion Hk; subst; cbn; auto.
Qed.

Lemma run_owed rs : forall p st res st' t k,
  run (handleConnection server c addr index) p rs st = (res, st', t) ->
  owed p = Some k ->
  (count (is_call "RPCPacket.CloseConnection") t <= k)%nat /\
  (res = Ok Returned -> count (is_call "RPCPacket.CloseConnection") t = k).
Proof.
  induction rs as [|r rs IH]; intros p st res st' t k Hrun Hk.
  - rewrite run_nil in Hrun. inversion Hrun; subst. cbn. split; [lia|].
    intros [= ->]. cbn in Hk. by inversion Hk.
  - rewrite run_cons in Hrun.
    destruct (handleConnection server c addr index p r st) as [[res1 st1] t1] eqn:Hstep.
    destruct res1 as [p1| |code].
    + destruct (run _ p1 rs st1) as [[res2 st2] t2] eqn:Hrest.
      inversion Hrun; subst.
      destruct (step_owed _ _ _ _ _ _ _ Hstep Hk) as [Hk1 Hle].
      destruct (IH _ _ _ _ _ _ Hrest Hk1) as [Hle2 Heq].
      rewrite count_app. split; [lia|]. intros Hret. specialize (Heq Hret). lia.
    + inversion Hrun; subst. clear IH. split; [|discriminate].
      relay_inv Hstep; cbn; lia.
    + inversion Hrun; subst. clear IH. split; [|discriminate].
      relay_inv Hstep; cbn in Hk; inversion Hk; subst; cbn; lia.
Qed.

Lemma run_Returned rs st res st' t :
  run (handleConnection server c addr index) Returned rs st = (res, st', t) ->
  res = Ok Returned -> rs = [] /\ st' = st /\ t = [].
Proof.
  destruct rs as [|r rs]; intros Hrun ->.
  - rewrite run_nil in Hrun. by inversion Hrun.
  - rewrite run_cons in Hrun. by destruct r.
Qed.

Lemma run_AtFailLock rs st st' t :
  run (handleConnection server c addr index) AtFailLock rs st = (Ok Returned, st', t) ->
  count (is_close c) t = 1%nat /\
  lookup_conn (connections st') (rpcName server) index = None.
Proof.
  destruct rs as [|r rs]; intros Hrun.
  - rewrite run_nil in Hrun. discriminate.
  - rewrite run_cons in Hrun.
    destruct (handleConnection server c addr index AtFailLock r st) as [[res1 st1] t1] eqn:Hstep.
    destruct res1 as [p1| |code]; try discriminate.
    destruct (run _ p1 rs st1) as [[res2 st2] t2] eqn:Hrest.
    inversion Hrun; subst.
    relay_inv Hstep;
      destruct (run_Returned _ _ _ _ _ Hrest eq_refl) as (-> & -> & ->);
      cbn; rewrite bool_decide_eq_true_2 by done; split; try done;
      unfold lookup_conn; cbn.
    + rewrite lookup_insert_eq. apply lookup_delete_eq.
    + by rewrite Heqo.
Qed.

(** C5, as amended.  For a relay task that has issued NewConnection and got
    [e] back: CloseConnection is issued only if NewConnection returned without
    error; if the task returns (the process is not ended by the exit on
    ErrShutdown), CloseConnection is issued exactly once when NewConnection
    returned without error and not at all otherwise; and when NewConnection
    failed, the returning task has removed the table entry and closed the
    socket once. *)
Theorem CloseConnection_iff_NewConnection (e : option error) rs st res st' t :
  run (handleConnection server c addr index) AtOpenLock (Resume :: CallRet e :: rs) st
    = (res, st', t) ->
  let n := count (is_call "RPCPacket.CloseConnection") t in
  ((0 < n)%nat -> e = None) /\
  (res = Ok Returned ->
     (n = 1%nat <-> e = None) /\
     (e <> None ->
        n = 0%nat /\ count (is_close c) t = 1%nat /\
        lookup_conn (connections st') (rpcName server) index = None)).
Proof.
  intros Hrun n. subst n.
  rewrite run_cons in Hrun.
  destruct (handleConnection server c addr index AtOpenLock Resume st)
    as [[res1 st1] t1] eqn:Hopen.
  destruct res1 as [p1| |code].
  2,3: inversion Hrun; subst; relay_inv Hopen; cbn; (split; [lia | discriminate]).
  rewrite run_cons in Hrun.
  assert (p1 = InNewConnection /\ count (is_call "RPCPacket.CloseConnection") t1 = 0%nat
          /\ count (is_close c) t1 = 0%nat) as (-> & Ht1 & Hc1).
  { relay_inv Hopen; by cbn. }
  clear Hopen.
  destruct (handleConnection server c addr index InNewConnection (CallRet e) st1)
    as [[res2 st2] t2] eqn:Hnew.
  destruct res2 as [p2| |code].
  2,3: inversion Hrun; subst; rewrite count_app, Ht1;
       relay_inv Hnew; cbn; (split; [lia | discriminate]).
  destruct (run _ p2 rs st2) as [[res3 st3] t3] eqn:Hrest.
  inversion Hrun; subst. rewrite !count_app, Ht1, Hc1.
  destruct e as [e|].
  - assert (p2 = AtFailLock /\ count (is_call "RPCPacket.CloseConnection") t2 = 0%nat
            /\ count (is_close c) t2 = 0%nat) as (-> & Ht2 & Hc2).
    { relay_inv Hnew; by cbn. }
    rewrite Ht2, Hc2.
    destruct (run_owed _ _ _ _ _ _ _ Hrest eq_refl) as [Hle Heq].
    split; [lia|]. intros ->. specialize (Heq eq_refl).
    destruct (run_AtFailLock _ _ _ _ Hrest) as [Hcl Hlk].
    split; [split; [lia | discriminate]|]. intros _. simpl. auto with lia.
  - assert (p2 = InRead /\ count (is_call "RPCPacket.CloseConnection") t2 = 0%nat)
      as (-> & Ht2).
    { relay_inv Hnew; by cbn. }
    rewrite Ht2.
    destruct (run_owed _ _ _ _ _ _ _ Hrest eq_refl) as [Hle Heq].
    split; [done|]. intros ->. specialize (Heq eq_refl).
    split; [split; [done | simpl; lia]|]. done.
Qed.

End RelayTask.

(** C5, counterexample.  NewConnection returns without error, one packet is
    read, HandlePacket returns ErrShutdown: the process exits with status 1
    and no CloseConnection has been issued. *)
Lemma CloseConnection_skipped_on_exit :
  exists st' t,
    run (handleConnection gpcm 7%nat "192.0.2.1:5000" 1) AtOpenLock
        [Resume; CallRet None; ReadRet [Byte.x01] None; Resume; CallRet (Some ErrShutdown)]
        front_up = (Crash 1, st', t) /\
    count (is_call "RPCPacket.NewConnection") t = 1%nat /\
    count (is_call "RPCPacket.CloseConnection") t = 0%nat.
Proof. eexists _, _. split; [vm_compute; reflexivity | split; reflexivity]. Qed.

Lemma CloseConnection_iff_NewConnection_witness :
  let out := run (handleConnection gpcm 7%nat "192.0.2.1:5000" 1) AtOpenLock
                 [Resume; CallRet (Some ErrShutdown); Resume] front_up in
  let n := count (is_call "RPCPacket.CloseConnection") out.2 in
  ((0 < n)%nat -> Some ErrShutdown = None) /\
  (out.1.1 = Ok Returned ->
     (n = 1%nat <-> Some ErrShutdown = None) /\
     (Some ErrShutdown <> None ->
        n = 0%nat /\ count (is_close 7%nat) out.2 = 1%nat /\
        lookup_conn (connections out.1.2) "gpcm" 1 = None)).
Proof.
  intros out.
  apply (CloseConnection_iff_NewConnection gpcm 7%nat "192.0.2.1:5000" 1
           (Some ErrShutdown) [Resume] front_up out.1.1 out.1.2 out.2).
  vm_compute. reflexivity.
Defined.

(** ** ErrShutdown on the outbound calls of a relay task *)

Lemma HandlePacket_ErrShutdown_exits server c addr index st :
  1 <= rpcBusyCount st ->
  handleConnection server c addr index InHandlePacket (CallRet (Some ErrShutdown)) st =
    (Crash 1, set_rpcBusyCount (rpcBusyCount st - 1) st,
     [EDone; ELog "Error" "Failed to forward packet to backend:"; EExit 1]).
Proof.
  intros Hb. destruct st as [cs mu busy cl]. unfold handleConnection. unfold_M. cbn in *.
  destruct (busy - 1 <? 0) eqn:Hlt; [lia | done].
Qed.

Lemma CloseConnection_ErrShutdown_exits server c addr index st :
  1 <= rpcBusyCount st ->
  handleConnection server c addr index InCloseConnection (CallRet (Some ErrShutdown)) st =
    (Crash 1, set_rpcBusyCount (rpcBusyCount st - 1) st,
     [EDone; ELog "Error" "Failed to forward close connection to backend:"; EExit 1]).
Proof.
  intros Hb. destruct st as [cs mu busy cl]. unfold handleConnection. unfold_M. cbn in *.
  destruct (busy - 1 <? 0) eqn:Hlt; [lia | done].
Qed.

Lemma NewConnection_error_continues server c addr index st (e : error) :
  1 <= rpcBusyCount st ->
  handleConnection server c addr index InNewConnection (CallRet (Some e)) st =
    (Ok AtFailLock, set_rpcBusyCount (rpcBusyCount st - 1) st,
     [EDone; ELog "Error" "Failed to forward new connection to backend:"]).
Proof.
  intros Hb. destruct st as [cs mu busy cl]. unfold handleConnection. unfold_M. cbn in *.
  destruct (busy - 1 <? 0) eqn:Hlt; [lia | done].
Qed.

(** C1, at the failing input.  NewConnection returns ErrShutdown: the relay
    task logs, removes the entry, closes the socket and returns; the process
    does not exit. *)
Theorem NewConnection_ErrShutdown_no_exit :
  run (handleConnection gpcm 7%nat "192.0.2.1:5000" 1) AtOpenLock
      [Resume; CallRet (Some ErrShutdown); Resume] front_up =
    (Ok Returned, front_up,
     [ELock; EAdd 1; EStore "gpcm" 1 7%nat; EUnlock;
      ECall "RPCPacket.NewConnection" (Some (RPCPacket.mk "gpcm" 1 "192.0.2.1:5000" []));
      EDone; ELog "Error" "Failed to forward new connection to backend:";
      ELock; EDelete "gpcm" 1; EUnlock; EConnClose 7%nat]).
Proof. vm_compute. reflexivity. Qed.

(** ** Listener bind errors *)

Lemma startFrontendServer_bind_failure {S} (e : error) (st : S) :
  startFrontendServer (Some e) st =
    (Crash 1, st, [EListen "localhost:29998"; ELog "Error" "Failed to listen on"; EExit 1]).
Proof. reflexivity. Qed.

Lemma backendMain_bind_failure reload (e : error) :
  backendMain reload None (Some e) tt =
    (Crash 1, tt, [EListen "localhost:29999"; ELog "Error" "Failed to listen on"; EExit 1]).
Proof. reflexivity. Qed.

Lemma frontendMain_bind_failure skipBackend (e : error) :
  halted (boot skipBackend None (Some e)) = Some 1.
Proof. reflexivity. Qed.

Lemma frontendListen_bind_failure {S} server (e : error) (st : S) :
  frontendListen server InListen (ListenRet (Some e)) st =
    (Ok (ListenerReturned, None), st, [ELog "Error" "Failed to listen on"]).
Proof. reflexivity. Qed.

(** C2, at the failing input.  The listener of gpcm fails to bind: its
    goroutine logs and returns, and the front keeps running, with no exit
    status and no exit in its history. *)
Theorem frontendListen_bind_failure_no_exit :
  exists s,
    sys_run (boot false None None)
      [LListener "gpcm" (ListenRet (Some (ErrOther "bind: address already in use")))] = Some s /\
    halted s = None /\
    listeners s !! "gpcm" = Some (gpcm, ListenerReturned) /\
    count (fun ae => is_exit ae.2) (history s) = 0%nat.
Proof. eexists. split; [vm_compute; reflexivity | repeat split; vm_compute; reflexivity]. Qed.

(** ** ShutdownBackend *)

(** C4.  A call of ShutdownBackend that is not kept waiting locks the mutex,
    waits on the busy counter, issues Shutdown to the back, logs its error
    unless it is absent or the forcibly-closed one, closes the RPC handle
    (logging an error of that), starts waitForBackend and returns nil; it
    does not unlock the mutex.  While the busy counter is not zero it stays
    parked at the wait, after the lock. *)
Theorem ShutdownBackend_protocol (st : front) (e1 e2 : option error) :
  rpcMutex st = false ->
  rpcBusyCount st = 0 ->
  rpcClient st <> ClientNil ->
  let t := [ELock; EWait; ECall "RPCPacket.Shutdown" None] ++
           match e1 with
           | Some e => if Contains (Error e) RPCFrontendPacket.forcibly_closed then []
                       else [ELog "Error" "Failed to reload backend:"]
           | None => []
           end ++
           [EClientClose] ++
           match e2 with
           | Some _ => [ELog "Error" "Failed to close RPC client:"]
           | None => []
           end ++
           [EGo "waitForBackend"] in
  run RPCFrontendPacket.ShutdownBackend RPCFrontendPacket.SdAtLock
      [Resume; Resume; CallRet e1; CloseRet e2] st =
    (Ok (RPCFrontendPacket.SdReturned None),
     set_rpcClient ClientClosed (set_rpcMutex true st), t) /\
  count (fun e => match e with EUnlock => true | _ => false end) t = 0%nat /\
  (forall st1, rpcBusyCount st1 <> 0 ->
     RPCFrontendPacket.ShutdownBackend RPCFrontendPacket.SdAtWait Resume st1 = (Blocked, st1, [])).
Proof.
  destruct st as [cs mu busy cl]; simpl; intros -> -> Hcl.
  split; [|split].
  - unfold run, RPCFrontendPacket.ShutdownBackend. unfold_M. cbn.
    destruct cl; [done | |];
      destruct e1 as [e1|]; cbn;
      try destruct (Contains (Error e1) RPCFrontendPacket.forcibly_closed); cbn;
      destruct e2; reflexivity.
  - destruct e1 as [e1|]; cbn;
      try destruct (Contains (Error e1) RPCFrontendPacket.forcibly_closed); cbn;
      destruct e2; reflexivity.
  - intros [cs1 mu1 busy1 cl1]; simpl; intros Hb.
    unfold RPCFrontendPacket.ShutdownBackend. unfold_M. cbn.
    destruct (busy1 =? 0) eqn:Hz; [lia | done].
Qed.

Lemma ShutdownBackend_protocol_witness :
  run RPCFrontendPacket.ShutdownBackend RPCFrontendPacket.SdAtLock
      [Resume; Resume; CallRet (Some (ErrOther "unexpected EOF")); CloseRet None] front_up =
    (Ok (RPCFrontendPacket.SdReturned None),
     set_rpcClient ClientClosed (set_rpcMutex true front_up),
     [ELock; EWait; ECall "RPCPacket.Shutdown" None; ELog "Error" "Failed to reload backend:";
      EClientClose; EGo "waitForBackend"]).
Proof.
  apply (ShutdownBackend_protocol front_up (Some (ErrOther "unexpected EOF")) None);
    [reflexivity | reflexivity | discriminate].
Defined.

(** ** SendPacket *)

(** C6.  SendPacket waits while the mutex is held.  Once it has the mutex it
    looks the pair up: if the table has no entry it returns ErrBadIndex; if
    it has one, the bytes are written to that socket and what the write
    returns is returned, nil included.  The lookup and the write lie between
    the lock and the unlock, and the state is left as it was found. *)
Theorem SendPacket_spec (st : front) (args : RPCFrontendPacket.t) (wr : option error) :
  let server := RPCFrontendPacket.Server args in
  let index := RPCFrontendPacket.Index args in
  let found := lookup_conn (connections st) server index in
  let t := [ELock; ELoad server index found] ++
           match found with
           | Some c => [EConnWrite c (RPCFrontendPacket.Data args)]
           | None => []
           end ++ [EUnlock] in
  RPCFrontendPacket.SendPacket args wr st =
    (if rpcMutex st then (Blocked, st, [])
     else (Ok (match found with Some _ => wr | None => Some ErrBadIndex end), st, t))
  /\ under_mutex false t = true.
Proof.
  destruct st as [cs mu busy cl]; simpl.
  unfold RPCFrontendPacket.SendPacket. unfold_M. cbn.
  destruct mu; cbn; by destruct (lookup_conn cs _ _).
Qed.

Lemma SendPacket_spec_witness :
  let st := set_connections (insert "gpcm" {[ 1 := 7%nat ]}) front_up in
  RPCFrontendPacket.SendPacket (RPCFrontendPacket.mk "gpcm" 1 [Byte.x6f; Byte.x6b])
    (Some (ErrOther "broken pipe")) st =
    (Ok (Some (ErrOther "broken pipe")), st,
     [ELock; ELoad "gpcm" 1 (Some 7%nat); EConnWrite 7%nat [Byte.x6f; Byte.x6b]; EUnlock]).
Proof.
  intros st.
  apply (SendPacket_spec st (RPCFrontendPacket.mk "gpcm" 1 [Byte.x6f; Byte.x6b])
           (Some (ErrOther "broken pipe"))).
Defined.

(** C7.  SendPacket for a pair that is not in the table returns ErrBadIndex,
    ends in the state it started in, and touches neither the table nor any
    socket: it locks, looks the pair up and unlocks, with no store, delete,
    write or close (and while the mutex is held it waits, having done
    nothing). *)
Theorem SendPacket_absent (st : front) (args : RPCFrontendPacket.t) (wr : option error) :
  lookup_conn (connections st) (RPCFrontendPacket.Server args) (RPCFrontendPacket.Index args)
    = None ->
  let t := [ELock; ELoad (RPCFrontendPacket.Server args) (RPCFrontendPacket.Index args) None;
            EUnlock] in
  RPCFrontendPacket.SendPacket args wr st =
    (if rpcMutex st then (Blocked, st, []) else (Ok (Some ErrBadIndex), st, t)) /\
  count is_effect t = 0%nat.
Proof.
  destruct st as [cs mu busy cl]; simpl. intros Hnone.
  unfold RPCFrontendPacket.SendPacket. unfold_M. simpl.
  destruct mu; [done|]. simpl. by rewrite Hnone.
Qed.

Lemma SendPacket_absent_witness :
  RPCFrontendPacket.SendPacket (RPCFrontendPacket.mk "gamestats" 99999 [Byte.x6f; Byte.x6b])
    None front_up =
    (Ok (Some ErrBadIndex), front_up, [ELock; ELoad "gamestats" 99999 None; EUnlock]).
Proof.
  apply (SendPacket_absent front_up (RPCFrontendPacket.mk "gamestats" 99999 [Byte.x6f; Byte.x6b])
           None).
  reflexivity.
Defined.

(** ** The payloads of HandlePacket *)

Lemma payloads_app t1 t2 : payloads (t1 ++ t2) = payloads t1 ++ payloads t2.
Proof.
  induction t1 as [|e t1 IH]; [done|].
  destruct e; simpl; try done.
  destruct args; [|done]. destruct (decide _); simpl; by rewrite IH.
Qed.

Lemma chunks_cons r rs : chunks (r :: rs) = chunks [r] ++ chunks rs.
Proof.
  destruct r; try done. destruct err; [done|]. simpl. by destruct avail.
Qed.

(** What one read hands to the relay loop: the bytes that fit the buffer. *)
Lemma conn_Read_slice size avail n buffer :
  conn_Read (make_bytes size) avail = (n, buffer) ->
  slice_to buffer n = take size avail /\ n = Z.of_nat (length (take size avail)).
Proof.
  unfold conn_Read, slice_to, make_bytes. rewrite length_replicate.
  intros [= <- <-]. rewrite Nat2Z.id.
  set (k := Nat.min size (length avail)).
  assert (Hk : take k avail = take size avail).
  { subst k. destruct (Nat.le_ge_cases size (length avail)).
    - by rewrite Nat.min_l.
    - rewrite Nat.min_r by done. rewrite !take_ge; [done | lia | lia]. }
  split.
  - rewrite take_app_le by (rewrite length_take; unfold k; lia).
    rewrite take_take, Nat.min_id. done.
  - rewrite <- Hk. rewrite length_take. subst k. lia.
Qed.

Section RelayPayloads.

Variables (server : serverInfo) (c : conn) (addr : string) (index : Z).

Lemma step_payloads p r st p1 st1 t1 :
  handleConnection server c addr index p r st = (Ok p1, st1, t1) ->
  payloads t1 ++ pending p1 = pending p ++ chunks [r].
Proof.
  intros H. relay_inv H; try reflexivity.
  all: match goal with
       | Hr : conn_Read _ _ = _ |- _ => apply conn_Read_slice in Hr as [Hs Hn]
       end.
  - destruct avail; [done|]. rewrite length_take in Hn. cbn [length] in Hn. lia.
  - destruct avail as [|b avail]; [simpl in Hn; lia|].
    unfold pending. by rewrite Hs.
Qed.

Lemma step_payloads_stuck p r st res st1 t1 :
  handleConnection server c addr index p r st = (res, st1, t1) ->
  (forall p1, res <> Ok p1) -> payloads t1 = [].
Proof.
  intros H Hres. relay_inv H; try reflexivity; by edestruct Hres.
Qed.

Lemma run_payloads rs : forall p st res st' t,
  run (handleConnection server c addr index) p rs st = (res, st', t) ->
  payloads t `prefix_of` pending p ++ chunks rs.
Proof.
  induction rs as [|r rs IH]; intros p st res st' t Hrun.
  - rewrite run_nil in Hrun. inversion Hrun; subst. apply prefix_nil.
  - rewrite run_cons in Hrun.
    destruct (handleConnection server c addr index p r st) as [[res1 st1] t1] eqn:Hstep.
    destruct res1 as [p1| |code].
    + destruct (run _ p1 rs st1) as [[res2 st2] t2] eqn:Hrest.
      inversion Hrun; subst.
      rewrite payloads_app, chunks_cons, (assoc_L (++)).
      rewrite <- (step_payloads _ _ _ _ _ _ Hstep), <- (assoc_L (++)).
      apply prefix_app, (IH _ _ _ _ _ Hrest).
    + inversion Hrun; subst.
      rewrite (step_payloads_stuck _ _ _ _ _ _ Hstep) by done. apply prefix_nil.
    + inversion Hrun; subst.
      rewrite (step_payloads_stuck _ _ _ _ _ _ Hstep) by done. apply prefix_nil.
Qed.

End RelayPayloads.

Lemma chunks_bounds rs : Forall (fun d => (0 < length d <= 1024)%nat) (chunks rs).
Proof.
  induction rs as [|r rs IH]; [constructor|].
  rewrite chunks_cons. apply Forall_app. split; [|done].
  destruct r; try constructor. destruct err; [constructor|].
  destruct avail as [|b avail]; [constructor|].
  change (chunks [ReadRet (b :: avail) None]) with [take 1024 (b :: avail)].
  constructor; [|constructor].
  rewrite length_take. cbn [length]. lia.
Qed.

(** C9.  The payloads of the HandlePacket calls of a relay task are, in
    order, what its successful non-empty reads delivered into the 1024-byte
    buffer, a read after a read; each has between 1 and 1024 bytes.  A
    successful read of no byte issues nothing and leaves the task at the
    read. *)
Theorem HandlePacket_payloads server c addr index rs st res st' t :
  run (handleConnection server c addr index) AtOpenLock rs st = (res, st', t) ->
  payloads t `prefix_of` chunks rs /\
  Forall (fun d => (0 < length d <= 1024)%nat) (payloads t) /\
  (forall st0, handleConnection server c addr index InRead (ReadRet [] None) st0
               = (Ok InRead, st0, [])).
Proof.
  intros Hrun. pose proof (run_payloads _ _ _ _ _ _ _ _ _ _ Hrun) as Hpre.
  simpl in Hpre. split; [done|]. split.
  - destruct Hpre as [k Hk]. pose proof (chunks_bounds rs) as Hb.
    rewrite Hk in Hb. by apply Forall_app in Hb as [? _].
  - intros st0. reflexivity.
Qed.

Lemma HandlePacket_payloads_witness :
  let rs := [Resume; CallRet None; ReadRet [] None; ReadRet [Byte.x01; Byte.x02] None;
             Resume; CallRet None] in
  let out := run (handleConnection gpcm 7%nat "192.0.2.1:5000" 1) AtOpenLock rs front_up in
  payloads out.2 `prefix_of` chunks rs /\
  Forall (fun d => (0 < length d <= 1024)%nat) (payloads out.2) /\
  (forall st0, handleConnection gpcm 7%nat "192.0.2.1:5000" 1 InRead (ReadRet [] None) st0
               = (Ok InRead, st0, [])).
Proof.
  intros rs out.
  apply (HandlePacket_payloads gpcm 7%nat "192.0.2.1:5000" 1 rs front_up out.1.1 out.1.2 out.2).
  vm_compute. reflexivity.
Defined.

(** ** The indices a listener assigns *)

Lemma frontendListen_accept_ok {S} server count c addr keepalive (st : S) :
  exists t,
    frontendListen server (InAccept count) (AcceptRet c addr None keepalive) st =
      (Ok (InAccept (uint64_incr count),
           Some (mkRelay server c addr (uint64_incr count) AtOpenLock)), st, t).
Proof.
  unfold frontendListen. unfold_M.
  destruct (decide (protocol server = "tcp")); [destruct keepalive|]; cbn; eauto.
Qed.

Lemma frontendListen_accept_err {S} server count c addr (e : error) keepalive (st : S) :
  frontendListen server (InAccept count) (AcceptRet c addr (Some e) keepalive) st =
    (Ok (InAccept count, None), st, [ELog "Error" "Failed to accept connection on"]).
Proof. reflexivity. Qed.

(** A listener step neither reads nor writes the front's state. *)
Lemma frontendListen_frame {S S'} server p r (st : S) (st' : S') :
  (frontendListen server p r st).1.2 = st /\
  (frontendListen server p r st').1.1 = (frontendListen server p r st).1.1.
Proof.
  unfold frontendListen. unfold_M.
  destruct p, r; cbn; try done; try (by destruct err).
  destruct err; [done|]. destruct (decide _); [destruct keepalive|]; done.
Qed.

Lemma started_frame {S S'} server rs : forall p (st : S) (st' : S'),
  started server p rs st' = started server p rs st.
Proof.
  induction rs as [|r rs IH]; intros p st st'; [done|]. simpl.
  destruct (frontendListen_frame server p r st st') as [Hst Hres].
  destruct (frontendListen_frame server p r st' st) as [Hst' _].
  destruct (frontendListen server p r st) as [[res st1] t1].
  destruct (frontendListen server p r st') as [[res' st1'] t1'].
  simpl in *. subst. destruct res as [[p' o]| |]; [|done|done].
  f_equal. apply IH.
Qed.

Lemma started_accept_cons {S} server count r rs (st : S) :
  started server (InAccept count) (r :: rs) st =
    match r with
    | AcceptRet c addr None _ =>
        mkRelay server c addr (uint64_incr count) AtOpenLock
          :: started server (InAccept (uint64_incr count)) rs st
    | AcceptRet _ _ (Some _) _ => started server (InAccept count) rs st
    | _ => []
    end.
Proof.
  destruct r; try reflexivity.
  destruct err as [e|].
  - reflexivity.
  - destruct (frontendListen_accept_ok server count c addr keepalive st) as [t Ht].
    cbn [started]. rewrite Ht. reflexivity.
Qed.

Lemma started_index {S} server rs : forall count (st : S) k r,
  started server (InAccept count) rs st !! k = Some r ->
  r_index r = Nat.iter (Datatypes.S k) uint64_incr count.
Proof.
  induction rs as [|x rs IH]; intros count st k r; [done|].
  rewrite started_accept_cons. destruct x; try done.
  destruct err; [apply IH|].
  destruct k as [|k]; simpl.
  - by intros [= <-].
  - intros Hk. rewrite (IH _ _ _ _ Hk). simpl. by rewrite <- Nat.iter_succ_r.
Qed.

Lemma started_sorted {S} server rs : forall count (st : S),
  0 <= count ->
  count + Z.of_nat (length (started server (InAccept count) rs st)) < uint64_modulus ->
  StronglySorted Z.lt (map r_index (started server (InAccept count) rs st)) /\
  Forall (fun i => count < i) (map r_index (started server (InAccept count) rs st)).
Proof.
  induction rs as [|x rs IH]; intros count st Hc Hlen.
  - simpl. split; constructor.
  - rewrite started_accept_cons in *. destruct x; try (split; constructor).
    destruct err; [by apply IH|].
    simpl in Hlen.
    assert (Hincr : uint64_incr count = count + 1).
    { unfold uint64_incr. apply Z.mod_small. lia. }
    rewrite Hincr in *.
    destruct (IH (count + 1) st) as [Hs Hf]; [lia | lia |].
    simpl. split.
    + by constructor.
    + constructor; [lia|].
      eapply Forall_impl; [exact Hf|]. simpl. intros; lia.
Qed.

Lemma count_after_mod (k : N) : count_after k = Z.of_N k mod uint64_modulus.
Proof.
  unfold count_after. induction k as [|k IH] using N.peano_ind; [done|].
  rewrite N.iter_succ, IH. unfold uint64_incr.
  rewrite N2Z.inj_succ, <- Z.add_1_r.
  by rewrite Zplus_mod_idemp_l.
Qed.

(** C8, counterexample.  The counter wraps: the connection accepted after
    the one that got index 2^64 - 1 gets index 0, and the one after that gets
    index 1 again, which the first connection had. *)
Lemma index_wraps :
  count_after (2 ^ 64 - 1) = 2 ^ 64 - 1 /\
  count_after (2 ^ 64) = 0 /\
  count_after (2 ^ 64 + 1) = count_after 1 /\
  map r_index
    (started gpcm (InAccept (2 ^ 64 - 1))
       [AcceptRet 8%nat "192.0.2.8:5000" None None; AcceptRet 9%nat "192.0.2.9:5000" None None]
       front_up) = [0; 1].
Proof.
  rewrite !count_after_mod. repeat split; vm_compute; reflexivity.
Qed.

(** C8, as amended.  On one listener, the [k]-th accepted connection gets
    index [k] modulo 2^64; the indices are strictly increasing as long as
    fewer than 2^64 connections have been accepted; failed accepts consume no
    index; and the listener consults nothing of the front's state, so that
    removing an entry from the table has no effect on the indices. *)
Theorem indices_increase_until_wrap server rs (st st' : front) :
  let rl := started server InListen (ListenRet None :: rs) st in
  (forall k r, rl !! k = Some r -> r_index r = count_after (N.of_nat (Datatypes.S k))) /\
  (Z.of_nat (length rl) < uint64_modulus -> StronglySorted Z.lt (map r_index rl)) /\
  started server InListen (ListenRet None :: rs) st' = rl.
Proof.
  intros rl. subst rl.
  change (started server InListen (ListenRet None :: rs) st)
    with (started server (InAccept 0) rs st).
  split; [|split].
  - intros k r Hk. rewrite (started_index _ _ _ _ _ _ Hk).
    unfold count_after. by rewrite N2Nat.inj_iter, Nat2N.id.
  - intros Hlen. apply started_sorted; [done | lia].
  - apply (started_frame server (ListenRet None :: rs) InListen st st').
Qed.

Lemma indices_increase_until_wrap_witness :
  let rs := [AcceptRet 8%nat "192.0.2.8:5000" None None;
             AcceptRet 0%nat "" (Some (ErrOther "too many open files")) None;
             AcceptRet 9%nat "192.0.2.9:5000" None None] in
  let rl := started gpcm InListen (ListenRet None :: rs) front_up in
  (forall k r, rl !! k = Some r -> r_index r = count_after (N.of_nat (Datatypes.S k))) /\
  (Z.of_nat (length rl) < uint64_modulus -> StronglySorted Z.lt (map r_index rl)) /\
  started gpcm InListen (ListenRet None :: rs) front_zero = rl.
Proof.
  intros rs. apply (indices_increase_until_wrap gpcm rs front_up front_zero).
Defined.

(** ** The effect of a step on the table and on the sockets *)

Lemma lookup_conn_insert cs tag inner tag' idx' :
  lookup_conn (<[tag := inner]> cs) tag' idx' =
    if decide (tag = tag') then inner !! idx' else lookup_conn cs tag' idx'.
Proof.
  unfold lookup_conn. rewrite lookup_insert. by destruct (decide (tag = tag')).
Qed.

Lemma lookup_conn_store cs tag idx c inner tag' idx' c' :
  cs !! tag = Some inner ->
  lookup_conn (<[tag := <[idx := c]> inner]> cs) tag' idx' = Some c' ->
  lookup_conn cs tag' idx' = Some c' \/ (c' = c /\ tag' = tag /\ idx' = idx).
Proof.
  intros Hin. rewrite lookup_conn_insert. destruct (decide (tag = tag')) as [<-|]; [|auto].
  rewrite lookup_insert. destruct (decide (idx = idx')) as [<-|].
  - intros [= <-]. auto.
  - intros H. left. unfold lookup_conn. by rewrite Hin.
Qed.

Lemma lookup_conn_delete cs tag idx inner tag' idx' c' :
  cs !! tag = Some inner ->
  lookup_conn (<[tag := delete idx inner]> cs) tag' idx' = Some c' ->
  lookup_conn cs tag' idx' = Some c' /\ (tag', idx') <> (tag, idx).
Proof.
  intros Hin. rewrite lookup_conn_insert. destruct (decide (tag = tag')) as [<-|].
  - rewrite lookup_delete. destruct (decide (idx = idx')) as [<-|]; [done|].
    intros H. split; [|congruence]. unfold lookup_conn. by rewrite Hin.
  - intros H. split; [done | congruence].
Qed.

(** One step of a relay task. *)
Lemma handleConnection_effect server c addr index p resp st res st1 t1 :
  handleConnection server c addr index p resp st = (res, st1, t1) ->
  (forall c', count (is_close c') t1 =
              match res with
              | Ok Returned => if decide (c' = c) then 1%nat else 0%nat
              | _ => 0%nat
              end) /\
  (forall p1, res = Ok p1 -> p1 <> AtOpenLock /\ p <> Returned) /\
  (forall tag idx c', lookup_conn (connections st1) tag idx = Some c' ->
     lookup_conn (connections st) tag idx = Some c' \/
     (c' = c /\ tag = rpcName server /\ idx = index /\ p = AtOpenLock)).
Proof.
  intros H. relay_inv H; (split; [|split]).
  all: try (intros c'; cbn; repeat case_decide; repeat case_bool_decide; naive_solver).
  all: try (intros p1 [= <-]; done).
  all: try (intros p1; discriminate).
  all: cbn; intros tag idx c' Hl; auto.
  all: match goal with
       | Hin : _ !! _ = Some _ |- _ =>
           first [ destruct (lookup_conn_store _ _ _ _ _ _ _ _ Hin Hl) as [?|(?&?&?)]; by auto
                 | destruct (lookup_conn_delete _ _ _ _ _ _ _ Hin Hl) as [? _]; by auto ]
       end.
Qed.


Lemma SendPacket_effect args wr st res st1 t1 :
  RPCFrontendPacket.SendPacket args wr st = (res, st1, t1) ->
  connections st1 = connections st /\ quiet t1.
Proof.
  destruct st as [cs mu busy cl]. unfold RPCFrontendPacket.SendPacket. unfold_M. cbn.
  destruct mu; [by intros [= <- <- <-]|]. cbn.
  destruct (lookup_conn cs _ _); cbn; by intros [= <- <- <-].
Qed.

(** CloseConnection served to the back misses, or closes the socket it finds
    and removes its entry. *)
Lemma CloseConnection_effect args cr st res st1 t1 :
  RPCFrontendPacket.CloseConnection args cr st = (res, st1, t1) ->
  (forall code, res <> Crash code) /\
  ((connections st1 = connections st /\ quiet t1) \/
   exists c,
     lookup_conn (connections st) (RPCFrontendPacket.Server args) (RPCFrontendPacket.Index args)
       = Some c /\
     (forall c', count (is_close c') t1 = if decide (c' = c) then 1%nat else 0%nat) /\
     (forall tag idx c', lookup_conn (connections st1) tag idx = Some c' ->
        lookup_conn (connections st) tag idx = Some c' /\
        (tag, idx) <> (RPCFrontendPacket.Server args, RPCFrontendPacket.Index args))).
Proof.
  destruct st as [cs mu busy cl]. unfold RPCFrontendPacket.CloseConnection. unfold_M. cbn.
  destruct mu; [intros [= <- <- <-]; split; [done | by left]|]. cbn.
  destruct (lookup_conn cs _ _) as [c|] eqn:Hl; cbn.
  2: intros [= <- <- <-]; split; [done | by left].
  pose proof Hl as Hfound. unfold lookup_conn in Hl.
  match type of Hl with
  | match ?x with _ => _ end = _ => destruct x as [inner|] eqn:Hin; [|done]
  end. cbn.
  intros [= <- <- <-]. split; [done|]. right. exists c. split; [|split].
  - done.
  - intros c'. cbn. repeat case_decide; repeat case_bool_decide; subst; done.
  - cbn. intros tag idx c' Hl'. by eapply lookup_conn_delete.
Qed.

Lemma frontendListen_effect {S} server p resp (st : S) res st1 t1 :
  frontendListen server p resp st = (res, st1, t1) ->
  st1 = st /\ quiet t1 /\
  (forall p' r, res = Ok (p', Some r) ->
     exists c addr keepalive,
       resp = AcceptRet c addr None keepalive /\ r_conn r = c /\ r_pc r = AtOpenLock).
Proof.
  unfold frontendListen. unfold_M.
  destruct p, resp; cbn; try (intros [= <- <- <-]; by repeat split).
  - destruct err; intros [= <- <- <-]; by repeat split.
  - destruct err; [intros [= <- <- <-]; by repeat split|].
    destruct (decide _); [destruct keepalive|]; cbn; intros [= <- <- <-];
      (split; [done|]; split; [done|]); intros p' r [= <- <-];
      eexists _, _, _; by repeat split.
Qed.

Lemma dialer_step_effect p resp st res st1 t1 :
  dialer_step p resp st = (res, st1, t1) ->
  connections st1 = connections st /\ quiet t1.
Proof.
  destruct st as [cs mu busy cl].
  unfold dialer_step, startBackendProcess, waitForBackend. unfold_M.
  destruct p, resp; cbn; try (intros [= <- <- <-]; by split).
  - destruct exe, start, reload, wait; cbn; intros [= <- <- <-]; by split.
  - destruct err; cbn; [intros [= <- <- <-]; by split|].
    destruct mu; cbn; intros [= <- <- <-]; by split.
Qed.

Lemma ShutdownBackend_effect p resp st res st1 t1 :
  RPCFrontendPacket.ShutdownBackend p resp st = (res, st1, t1) ->
  connections st1 = connections st /\ quiet t1.
Proof.
  destruct st as [cs mu busy cl].
  unfold RPCFrontendPacket.ShutdownBackend. unfold_M.
  destruct p, resp; cbn; try (intros [= <- <- <-]; by split).
  - destruct mu; intros [= <- <- <-]; by split.
  - destruct (busy =? 0); cbn; [destruct cl|]; intros [= <- <- <-]; by split.
  - destruct err as [e|]; cbn;
      try destruct (Contains (Error e) RPCFrontendPacket.forcibly_closed); cbn;
      destruct cl; intros [= <- <- <-]; by split.
  - destruct err; cbn; intros [= <- <- <-]; by split.
Qed.

Lemma quiet_app t1 t2 : quiet t1 -> quiet t2 -> quiet (t1 ++ t2).
Proof. intros H1 H2 c. by rewrite count_app, H1, H2. Qed.

Lemma harmless_bind {A B} (m : M front A) (k : A -> M front B) :
  harmless m -> (forall a, harmless (k a)) -> harmless (m ≫= k).
Proof.
  intros Hm Hk st res st1 t1. unfold mbind, M_bind.
  destruct (m st) as [[r2 st2] t2] eqn:Hm2. apply Hm in Hm2 as [Hc Hq].
  destruct r2 as [a| |]; try (intros [= <- <- <-]; by split).
  destruct (k a st2) as [[r3 st3] t3] eqn:Hk3. apply Hk in Hk3 as [Hc3 Hq3].
  intros [= <- <- <-]. split; [congruence | by apply quiet_app].
Qed.

Lemma harmless_ret {A} (a : A) : harmless (mret a).
Proof. by intros st res st1 t1 [= <- <- <-]. Qed.

Lemma harmless_dialer p resp : harmless (dialer_step p resp).
Proof. intros st res st1 t1. apply dialer_step_effect. Qed.

Lemma admin_step_effect p resp st res st1 t1 :
  admin_step p resp st = (res, st1, t1) ->
  connections st1 = connections st /\ quiet t1.
Proof.
  revert st res st1 t1. change (harmless (admin_step p resp)).
  assert (Hsd : forall q, harmless (RPCFrontendPacket.ShutdownBackend q resp)).
  { intros q st res st1 t1. apply ShutdownBackend_effect. }
  destruct p as [q|[q| |err]]; cbn [admin_step ReloadBackend].
  - apply harmless_bind; [done | intros; apply harmless_ret].
  - apply harmless_bind; [|intros; apply harmless_ret].
    apply harmless_bind; [done|]. intros []; apply harmless_ret.
  - apply harmless_bind; [|intros; apply harmless_ret].
    apply harmless_bind; [|intros; apply harmless_ret].
    apply (harmless_dialer (InExec true false)).
  - apply harmless_bind; [|intros; apply harmless_ret].
    by intros st res st1 t1 [= <- <- <-].
Qed.

(** ** Sockets are closed once by their relay task, at most once more by the back *)

Lemma closes_app c h a t :
  closes c (h ++ map (pair a) t) = (closes c h + count (is_close c) t)%nat.
Proof.
  unfold closes. rewrite count_app. f_equal.
  induction t as [|e t IH]; simpl; congruence.
Qed.

Lemma relay_closes_app c h a t :
  relay_closes c (h ++ map (pair a) t) =
    (relay_closes c h + if is_relay c a then count (is_close c) t else 0)%nat.
Proof.
  unfold relay_closes. rewrite count_app. f_equal.
  induction t as [|e t IH]; simpl; [by destruct (is_relay c a)|].
  rewrite IH. by destruct (is_relay c a).
Qed.

Lemma serve_closes_app c h a t :
  serve_closes c (h ++ map (pair a) t) =
    (serve_closes c h + if is_serve a then count (is_close c) t else 0)%nat.
Proof.
  unfold serve_closes. rewrite count_app. f_equal.
  induction t as [|e t IH]; simpl; [by destruct (is_serve a)|].
  rewrite IH. by destruct (is_serve a).
Qed.

Lemma commit_inv {P} a s (out : result P * front * list event) k s' :
  commit a s out k = Some s' ->
  exists res st t,
    out = (res, st, t) /\
    ((exists p, res = Ok p /\
        s' = k p t (mkSystem st (listeners s) (relays s) (dialers s) (admins s) (halted s)
                      (history s ++ map (pair a) t))) \/
     (exists code, res = Crash code /\
        s' = mkSystem st (listeners s) (relays s) (dialers s) (admins s) (Some code)
               (history s ++ map (pair a) t))).
Proof.
  destruct out as [[res st] t]. unfold commit. intros H. exists res, st, t. split; [done|].
  destruct res; inversion H; eauto.
Qed.

(** Steps that leave the table and the relay tasks alone and close nothing. *)
Lemma inv_harmless s a st t L D A h :
  inv s -> halted s = None ->
  connections st = connections (shared s) -> quiet t ->
  inv (mkSystem st L (relays s) D A h (history s ++ map (pair a) t)).
Proof.
  intros [Hc Hr Hs Hk Ht Hn] Hrun Hconn Hq.
  split; simpl.
  - intros c. rewrite closes_app, relay_closes_app, serve_closes_app, Hq, Hc.
    destruct (is_relay c a), (is_serve a); lia.
  - intros c. rewrite relay_closes_app, Hq, <- Hr. destruct (is_relay c a); lia.
  - intros c. rewrite serve_closes_app, Hq. specialize (Hs c). destruct (is_serve a); lia.
  - done.
  - intros _ tag idx c Hl. rewrite serve_closes_app, Hq. rewrite Hconn in Hl.
    destruct (Ht Hrun _ _ _ Hl) as [Hz Hex]. split; [|done].
    destruct (is_serve a); lia.
  - intros _ c Hnz. rewrite serve_closes_app, Hq in Hnz. apply (Hn Hrun).
    destruct (is_serve a); lia.
Qed.

(** A listener starts a relay task on a new socket. *)
Lemma inv_spawn s c r L D A :
  inv s -> relays s !! c = None -> r_conn r = c -> r_pc r = AtOpenLock ->
  inv (mkSystem (shared s) L (<[c := r]> (relays s)) D A (halted s) (history s)).
Proof.
  intros [Hc Hr Hs Hk Ht Hn] Hfresh Hconn Hpc.
  split; simpl.
  - done.
  - intros c'. rewrite Hr, lookup_insert. destruct (decide (c = c')) as [<-|]; [|done].
    by rewrite Hfresh, Hpc.
  - done.
  - intros c' r'. rewrite lookup_insert. destruct (decide (c = c')) as [<-|].
    + by intros [= <-].
    + by apply Hk.
  - intros Hrun tag idx c' Hl. destruct (Ht Hrun _ _ _ Hl) as [Hz (r' & Hr' & ?)].
    split; [done|]. exists r'. rewrite lookup_insert_ne; [done | congruence].
  - intros Hrun c' Hnz. destruct (Hn Hrun _ Hnz) as (r' & Hr' & ?).
    exists r'. rewrite lookup_insert_ne; [done | congruence].
Qed.

(** A step of the relay task of [c]. *)
Lemma inv_relay_step s c r resp res st1 t1 :
  inv s -> halted s = None -> relays s !! c = Some r ->
  handleConnection (r_server r) (r_conn r) (r_addr r) (r_index r) (r_pc r) resp (shared s)
    = (res, st1, t1) ->
  (forall p1, res = Ok p1 ->
     inv (mkSystem st1 (listeners s) (<[c := set_pc p1 r]> (relays s)) (dialers s) (admins s)
            (halted s) (history s ++ map (pair (ARelay c)) t1))) /\
  (forall code, res = Crash code ->
     inv (mkSystem st1 (listeners s) (relays s) (dialers s) (admins s) (Some code)
            (history s ++ map (pair (ARelay c)) t1))).
Proof.
  intros [Hc Hr Hs Hk Ht Hn] Hrun Hrel Hstep.
  rewrite (Hk _ _ Hrel) in Hstep.
  destruct (handleConnection_effect _ _ _ _ _ _ _ _ _ _ Hstep) as (Hcl & Hpc & Htab).
  split.
  - intros p1 ->. destruct (Hpc p1 eq_refl) as [Hp1 Hp].
    assert (Hcount : forall c', count (is_close c') t1 =
              if decide (c' = c) then match p1 with Returned => 1%nat | _ => 0%nat end
              else 0%nat).
    { intros c'. rewrite Hcl. destruct p1; by case_decide. }
    split; simpl.
    + intros c'. rewrite closes_app, relay_closes_app, serve_closes_app, Hc. simpl.
      rewrite Hcount. case_decide; case_bool_decide; try congruence; lia.
    + intros c'. rewrite relay_closes_app, Hr, lookup_insert. simpl.
      rewrite Hcount. destruct (decide (c = c')) as [<-|Hne].
      * rewrite Hrel. rewrite bool_decide_eq_true_2 by done.
        rewrite decide_True by done. simpl. destruct (r_pc r); try done; lia.
      * rewrite bool_decide_eq_false_2 by done. lia.
    + intros c'. rewrite serve_closes_app. simpl. specialize (Hs c'). lia.
    + intros c' r'. rewrite lookup_insert. destruct (decide (c = c')) as [<-|].
      * intros [= <-]. simpl. by apply Hk.
      * by apply Hk.
    + intros _ tag idx c' Hl. rewrite serve_closes_app. simpl. rewrite Nat.add_0_r.
      destruct (Htab _ _ _ Hl) as [Hold|(-> & -> & -> & Hopen)].
      * destruct (Ht Hrun _ _ _ Hold) as [Hz (r' & Hr' & Htag & Hidx & Hpc')].
        split; [done|]. rewrite lookup_insert. destruct (decide (c = c')) as [<-|].
        -- rewrite Hrel in Hr'. inversion Hr'; subst r'. by exists (set_pc p1 r).
        -- by exists r'.
      * split.
        -- destruct (serve_closes c (history s)) eqn:Hz; [done|].
           destruct (Hn Hrun c) as (r' & Hr' & Hpc'); [lia|].
           rewrite Hrel in Hr'. inversion Hr'; subst r'. done.
        -- exists (set_pc p1 r). by rewrite lookup_insert_eq.
    + intros _ c'. rewrite serve_closes_app. simpl. rewrite Nat.add_0_r. intros Hnz.
      destruct (Hn Hrun _ Hnz) as (r' & Hr' & Hpc').
      rewrite lookup_insert. destruct (decide (c = c')) as [<-|].
      * by exists (set_pc p1 r).
      * by exists r'.
  - intros code ->.
    assert (Hq : quiet t1) by (intros c'; by rewrite Hcl).
    split; simpl; try done.
    + intros c'. rewrite closes_app, relay_closes_app, serve_closes_app, Hq, Hc. simpl.
      destruct (bool_decide _); lia.
    + intros c'. rewrite relay_closes_app, Hq, <- Hr. destruct (is_relay _ _); lia.
    + intros c'. rewrite serve_closes_app. simpl. specialize (Hs c'). lia.
Qed.

(** CloseConnection served to the back. *)
Lemma inv_close s args cr res st1 t1 L D A h :
  inv s -> halted s = None ->
  RPCFrontendPacket.CloseConnection args cr (shared s) = (res, st1, t1) ->
  inv (mkSystem st1 L (relays s) D A h (history s ++ map (pair AServe) t1)).
Proof.
  intros Hinv Hrun Hstep.
  destruct (CloseConnection_effect _ _ _ _ _ _ Hstep) as [_ [[Hconn Hq]|(c & Hl & Hcl & Htab)]].
  { by apply inv_harmless. }
  destruct Hinv as [Hc Hr Hs Hk Ht Hn].
  destruct (Ht Hrun _ _ _ Hl) as [Hz (r & Hrel & Htag & Hidx & Hpc)].
  split; simpl.
  - intros c'. rewrite closes_app, relay_closes_app, serve_closes_app, Hc. simpl. lia.
  - intros c'. rewrite relay_closes_app, Hr. simpl. lia.
  - intros c'. rewrite serve_closes_app, Hcl. simpl. case_decide; [subst; lia|].
    specialize (Hs c'). lia.
  - done.
  - intros _ tag idx c' Hl'. destruct (Htab _ _ _ Hl') as [Hold Hkey].
    destruct (Ht Hrun _ _ _ Hold) as [Hz' (r' & Hrel' & Htag' & Hidx' & Hpc')].
    rewrite serve_closes_app, Hcl. simpl. case_decide as Heq.
    + subst c'. rewrite Hrel in Hrel'. inversion Hrel'; subst r'. congruence.
    + split; [lia|]. by exists r'.
  - intros _ c'. rewrite serve_closes_app, Hcl. simpl. case_decide as Heq.
    + subst c'. intros _. by exists r.
    + rewrite Nat.add_0_r. by apply Hn.
Qed.

Lemma inv_step s l s' : inv s -> sys_step s l = Some s' -> inv s'.
Proof.
  intros Hinv. unfold sys_step.
  destruct (halted s) eqn:Hrun; [done|].
  destruct l as [tag resp|c resp|i resp|args wr|args cr|reload|i resp].
  - destruct (listeners s !! tag) as [[server p]|]; [|done].
    destruct (fresh s resp) eqn:Hfresh; [|done].
    intros Hs. apply commit_inv in Hs as (res & st & t & Hout & Hs).
    destruct (frontendListen_effect _ _ _ _ _ _ _ Hout) as (-> & Hq & Hstart).
    destruct Hs as [([p' started] & -> & ->)|(code & -> & ->)].
    2: by apply inv_harmless.
    destruct started as [r|]; [|simpl; by apply inv_harmless].
    destruct (Hstart _ _ eq_refl) as (c & addr & ka & -> & Hc & Hpc).
    simpl in Hfresh. apply bool_decide_eq_true_1 in Hfresh.
    rewrite Hc.
    apply (inv_spawn (mkSystem (shared s) (listeners s) (relays s) (dialers s) (admins s)
                        (halted s) (history s ++ map (pair (AListener tag)) t))
             c r); try done.
    by apply inv_harmless.
  - destruct (relays s !! c) as [r|] eqn:Hrel; [|done].
    intros Hs. apply commit_inv in Hs as (res & st & t & Hout & Hs).
    destruct (inv_relay_step _ _ _ _ _ _ _ Hinv Hrun Hrel Hout) as [Hok Hcrash].
    destruct Hs as [(p' & -> & ->)|(code & -> & ->)]; [by apply Hok | by apply Hcrash].
  - destruct (dialers s !! i) as [p|]; [|done].
    intros Hs. apply commit_inv in Hs as (res & st & t & Hout & Hs).
    destruct (dialer_step_effect _ _ _ _ _ _ Hout) as [Hc Hq].
    destruct Hs as [(p' & -> & ->)|(code & -> & ->)]; simpl; by apply inv_harmless.
  - intros Hs. apply commit_inv in Hs as (res & st & t & Hout & Hs).
    destruct (SendPacket_effect _ _ _ _ _ _ Hout) as [Hc Hq].
    destruct Hs as [(p' & -> & ->)|(code & -> & ->)]; simpl; by apply inv_harmless.
  - intros Hs. apply commit_inv in Hs as (res & st & t & Hout & Hs).
    destruct Hs as [(p' & -> & ->)|(code & -> & ->)]; simpl; by eapply inv_close.
  - intros [= <-]. rewrite <- (app_nil_r (history s)).
    change (@nil (actor * event)) with (map (pair AMain) (@nil event)).
    by apply inv_harmless.
  - destruct (admins s !! i) as [p|]; [|done].
    intros Hs. apply commit_inv in Hs as (res & st & t & Hout & Hs).
    destruct (admin_step_effect _ _ _ _ _ _ Hout) as [Hc Hq].
    destruct Hs as [(p' & -> & ->)|(code & -> & ->)]; simpl; by apply inv_harmless.
Qed.

Lemma lookup_conn_empty cs tag idx :
  map_Forall (fun _ (inner : gmap Z conn) => inner = ∅) cs -> lookup_conn cs tag idx = None.
Proof.
  intros Hall. unfold lookup_conn. destruct (cs !! tag) as [inner|] eqn:Hin; [|done].
  by rewrite (Hall _ _ Hin).
Qed.

(** What frontendMain leaves: an empty map under each of the four tags. *)
Lemma boot_connections skipBackend setOutput listen :
  map_Forall (fun tag (inner : gmap Z conn) => tag ∈ tags /\ inner = ∅)
    (connections (shared (boot skipBackend setOutput listen))).
Proof.
  destruct skipBackend, setOutput, listen; apply (bool_decide_unpack _); vm_compute; exact I.
Qed.

Lemma inv_boot skipBackend setOutput listen : inv (boot skipBackend setOutput listen).
Proof.
  pose proof (boot_connections skipBackend setOutput listen) as Hcs.
  assert (Hrel : relays (boot skipBackend setOutput listen) = ∅)
    by (by destruct skipBackend, setOutput, listen).
  assert (Hh : forall c, closes c (history (boot skipBackend setOutput listen)) = 0%nat /\
                         relay_closes c (history (boot skipBackend setOutput listen)) = 0%nat /\
                         serve_closes c (history (boot skipBackend setOutput listen)) = 0%nat)
    by (by destruct skipBackend, setOutput, listen).
  split.
  - intros c. destruct (Hh c) as (-> & -> & ->). done.
  - intros c. destruct (Hh c) as (_ & -> & _). by rewrite Hrel.
  - intros c. destruct (Hh c) as (_ & _ & ->). lia.
  - intros c r. by rewrite Hrel.
  - intros _ tag idx c Hl. rewrite lookup_conn_empty in Hl; [done|].
    eapply map_Forall_impl; [exact Hcs|]. by intros ? ? [_ ?].
  - intros _ c Hnz. by destruct (Hh c) as (_ & _ & ?).
Qed.

Lemma sys_run_inv ls : forall s s', inv s -> sys_run s ls = Some s' -> inv s'.
Proof.
  induction ls as [|l ls IH]; intros s s' Hinv; simpl.
  - by intros [= <-].
  - destruct (sys_step s l) as [s1|] eqn:Hstep; [|done].
    apply IH. by eapply inv_step.
Qed.

Lemma reachable_inv s : reachable s -> inv s.
Proof.
  intros (skipBackend & setOutput & listen & ls & Hrun).
  eapply sys_run_inv; [apply inv_boot | exact Hrun].
Qed.

(** C3, counterexample.  The back closes the socket of a live client through
    CloseConnection; the read of the relay task then fails, the task runs its
    close phase and returns, and its deferred close is the second call of
    Close on that socket. *)
Lemma socket_closed_twice :
  exists s r,
    sys_run (boot false None None) closed_by_back = Some s /\
    relays s !! 7%nat = Some r /\ r_pc r = Returned /\
    serve_closes 7%nat (history s) = 1%nat /\
    relay_closes 7%nat (history s) = 1%nat /\
    closes 7%nat (history s) = 2%nat.
Proof.
  eexists _, _. split; [vm_compute; reflexivity|].
  split; [vm_compute; reflexivity|]. repeat split.
Qed.

(** C3, as amended.  In every state of the front, the socket of a relay
    task has been closed once by that task if the task has returned and not
    by it otherwise (the deferred close, on every return path), and at most
    once more by CloseConnection served to the back; these are all the calls
    of Close on it.  A socket the back did not close through CloseConnection
    is closed exactly once, one it did is closed twice. *)
Theorem socket_closes s c r :
  reachable s -> relays s !! c = Some r ->
  relay_closes c (history s) = match r_pc r with Returned => 1%nat | _ => 0%nat end /\
  (serve_closes c (history s) <= 1)%nat /\
  closes c (history s) = (relay_closes c (history s) + serve_closes c (history s))%nat.
Proof.
  intros Hreach Hrel. destruct (reachable_inv _ Hreach) as [Hc Hr Hs _ _ _].
  split; [|split]; [|apply Hs|apply Hc].
  by rewrite Hr, Hrel.
Qed.

Lemma after_reachable ls :
  is_Some (sys_run (boot false None None) ls) -> reachable (after ls).
Proof.
  intros [s Hs]. exists false, None, None, ls. unfold after. by rewrite Hs.
Qed.

Lemma socket_closes_witness :
  relay_closes 7%nat (history (after closed_by_back)) = 1%nat /\
  (serve_closes 7%nat (history (after closed_by_back)) <= 1)%nat /\
  closes 7%nat (history (after closed_by_back)) =
    (relay_closes 7%nat (history (after closed_by_back)) +
     serve_closes 7%nat (history (after closed_by_back)))%nat.
Proof.
  apply (socket_closes (after closed_by_back) 7%nat
           (mkRelay gpcm 7%nat "192.0.2.1:5000" 1 Returned)).
  - apply after_reachable. vm_compute. eauto.
  - vm_compute. reflexivity.
Defined.

(** ** Calls for a tag the front does not know *)

Lemma is_Some_insert_existing (cs : gmap string (gmap Z conn)) tag0 inner inner' tag :
  cs !! tag0 = Some inner -> is_Some (<[tag0 := inner']> cs !! tag) -> is_Some (cs !! tag).
Proof.
  intros Hin. rewrite lookup_insert. destruct (decide (tag0 = tag)) as [<-|]; [|done].
  intros _. by rewrite Hin.
Qed.

Lemma handleConnection_dom server c addr index p resp st res st1 t1 :
  handleConnection server c addr index p resp st = (res, st1, t1) ->
  forall tag, is_Some (connections st1 !! tag) -> is_Some (connections st !! tag).
Proof.
  intros H. relay_inv H; cbn; intros tag Htag; try done.
  all: by eapply is_Some_insert_existing.
Qed.

Lemma CloseConnection_dom args cr st res st1 t1 :
  RPCFrontendPacket.CloseConnection args cr st = (res, st1, t1) ->
  forall tag, is_Some (connections st1 !! tag) -> is_Some (connections st !! tag).
Proof.
  destruct st as [cs mu busy cl]. unfold RPCFrontendPacket.CloseConnection. unfold_M. cbn.
  destruct mu; [by intros [= <- <- <-]|]. cbn.
  destruct (lookup_conn cs _ _) as [c|] eqn:Hl; cbn; [|by intros [= <- <- <-]].
  unfold lookup_conn in Hl.
  match type of Hl with
  | match ?x with _ => _ end = _ => destruct x as [inner|] eqn:Hin; [|done]
  end. cbn.
  intros [= <- <- <-] tag. cbn. by eapply is_Some_insert_existing.
Qed.

Lemma commit_shared {P} a s (out : result P * front * list event) k s' :
  (forall p t s1, shared (k p t s1) = shared s1) ->
  commit a s out k = Some s' -> shared s' = out.1.2.
Proof.
  intros Hk Hs. apply commit_inv in Hs as (res & st & t & -> & Hs).
  destruct Hs as [(p & -> & ->)|(code & -> & ->)]; [by rewrite Hk | done].
Qed.

Lemma known_tags_step s l s' : known_tags s -> sys_step s l = Some s' -> known_tags s'.
Proof.
  intros Hknown. unfold sys_step.
  destruct (halted s); [done|].
  destruct l as [tag resp|c resp|i resp|args wr|args cr|reload|i resp].
  - destruct (listeners s !! tag) as [[server p]|]; [|done].
    destruct (fresh s resp); [|done].
    intros Hs. apply commit_shared in Hs; [|by intros [? ?]].
    destruct (frontendListen server p resp (shared s)) as [[res st] t] eqn:Hout.
    apply frontendListen_effect in Hout as (-> & _). simpl in Hs.
    intros tag'. rewrite Hs. apply Hknown.
  - destruct (relays s !! c) as [r|]; [|done].
    intros Hs. apply commit_shared in Hs; [|done].
    destruct (handleConnection _ _ _ _ _ _ _) as [[res st] t] eqn:Hout.
    simpl in Hs. intros tag' Htag. apply Hknown. rewrite Hs in Htag.
    by eapply handleConnection_dom.
  - destruct (dialers s !! i) as [p|]; [|done].
    intros Hs. apply commit_shared in Hs; [|done].
    destruct (dialer_step _ _ _) as [[res st] t] eqn:Hout.
    apply dialer_step_effect in Hout as [Hc _]. simpl in Hs.
    intros tag'. rewrite Hs, Hc. apply Hknown.
  - intros Hs. apply commit_shared in Hs; [|done].
    destruct (RPCFrontendPacket.SendPacket _ _ _) as [[res st] t] eqn:Hout.
    apply SendPacket_effect in Hout as [Hc _]. simpl in Hs.
    intros tag'. rewrite Hs, Hc. apply Hknown.
  - intros Hs. apply commit_shared in Hs; [|done].
    destruct (RPCFrontendPacket.CloseConnection _ _ _) as [[res st] t] eqn:Hout.
    simpl in Hs. intros tag' Htag. apply Hknown. rewrite Hs in Htag.
    by eapply CloseConnection_dom.
  - by intros [= <-].
  - destruct (admins s !! i) as [p|]; [|done].
    intros Hs. apply commit_shared in Hs; [|done].
    destruct (admin_step _ _ _) as [[res st] t] eqn:Hout.
    apply admin_step_effect in Hout as [Hc _]. simpl in Hs.
    intros tag'. rewrite Hs, Hc. apply Hknown.
Qed.

Lemma reachable_known_tags s : reachable s -> known_tags s.
Proof.
  intros (skipBackend & setOutput & listen & ls & Hrun).
  assert (Hboot : known_tags (boot skipBackend setOutput listen)).
  { intros tag [inner Hin].
    by destruct (boot_connections skipBackend setOutput listen _ _ Hin). }
  revert Hrun Hboot. generalize (boot skipBackend setOutput listen).
  induction ls as [|l ls IH]; intros s0; simpl.
  - by intros [= <-].
  - destruct (sys_step s0 l) as [s1|] eqn:Hstep; [|done].
    intros Hrun Hk. apply (IH s1 Hrun). by eapply known_tags_step.
Qed.

(** C10.  In every state of the front, SendPacket and CloseConnection for a
    tag other than the four the front initialises do not panic: when the
    mutex is free they lock, find nothing, unlock and return ErrBadIndex, and
    the state they end in is the state they started in; while the mutex is
    held they wait, having done nothing. *)
Theorem unknown_tag_ErrBadIndex s (args : RPCFrontendPacket.t) (e : option error) :
  reachable s ->
  RPCFrontendPacket.Server args ∉ tags ->
  let t := [ELock; ELoad (RPCFrontendPacket.Server args) (RPCFrontendPacket.Index args) None;
            EUnlock] in
  let out := if rpcMutex (shared s) then (Blocked, shared s, [])
             else (Ok (Some ErrBadIndex), shared s, t) in
  RPCFrontendPacket.SendPacket args e (shared s) = out /\
  RPCFrontendPacket.CloseConnection args e (shared s) = out.
Proof.
  intros Hreach Htag.
  assert (Hnone : connections (shared s) !! RPCFrontendPacket.Server args = None).
  { destruct (connections (shared s) !! RPCFrontendPacket.Server args) eqn:Hin; [|done].
    destruct Htag. apply (reachable_known_tags _ Hreach). by eexists. }
  destruct (shared s) as [cs mu busy cl]. simpl in *.
  unfold RPCFrontendPacket.SendPacket, RPCFrontendPacket.CloseConnection. unfold_M.
  unfold lookup_conn. cbn. destruct mu; [done|]. cbn. by rewrite Hnone.
Qed.

Lemma unknown_tag_ErrBadIndex_witness :
  let args := RPCFrontendPacket.mk "natneg" 1 [Byte.x00] in
  let t := [ELock; ELoad "natneg" 1 None; EUnlock] in
  let out := if rpcMutex (shared (after closed_by_back))
             then (Blocked, shared (after closed_by_back), [])
             else (Ok (Some ErrBadIndex), shared (after closed_by_back), t) in
  RPCFrontendPacket.SendPacket args None (shared (after closed_by_back)) = out /\
  RPCFrontendPacket.CloseConnection args None (shared (after closed_by_back)) = out.
Proof.
  intros args.
  apply (unknown_tag_ErrBadIndex (after closed_by_back) args None).
  - apply after_reachable. vm_compute. eauto.
  - apply (bool_decide_unpack _). vm_compute. exact I.
Defined.


(** * Further properties of the code *)

(** ** CloseConnection served by the front *)

Lemma lookup_conn_delete_eq cs tag idx inner tag' idx' :
  cs !! tag = Some inner ->
  lookup_conn (<[tag := delete idx inner]> cs) tag' idx' =
    if decide ((tag', idx') = (tag, idx)) then None else lookup_conn cs tag' idx'.
Proof.
  intros Hin. rewrite lookup_conn_insert.
  destruct (decide (tag = tag')) as [<-|Hne].
  - rewrite lookup_delete. destruct (decide (idx = idx')) as [<-|Hni].
    + by rewrite decide_True.
    + rewrite decide_False by congruence. unfold lookup_conn. by rewrite Hin.
  - rewrite decide_False by congruence. done.
Qed.

Lemma lookup_conn_store_eq cs tag idx c inner tag' idx' :
  cs !! tag = Some inner ->
  lookup_conn (<[tag := <[idx := c]> inner]> cs) tag' idx' =
    if decide ((tag', idx') = (tag, idx)) then Some c else lookup_conn cs tag' idx'.
Proof.
  intros Hin. rewrite lookup_conn_insert.
  destruct (decide (tag = tag')) as [<-|Hne].
  - rewrite lookup_insert. destruct (decide (idx = idx')) as [<-|Hni].
    + by rewrite decide_True.
    + rewrite decide_False by congruence. unfold lookup_conn. by rewrite Hin.
  - rewrite decide_False by congruence. done.
Qed.

Lemma CloseConnection_eval st args cr inner c :
  rpcMutex st = false ->
  connections st !! RPCFrontendPacket.Server args = Some inner ->
  inner !! RPCFrontendPacket.Index args = Some c ->
  RPCFrontendPacket.CloseConnection args cr st =
    (Ok cr,
     set_connections
       (insert (RPCFrontendPacket.Server args) (delete (RPCFrontendPacket.Index args) inner)) st,
     [ELock; ELoad (RPCFrontendPacket.Server args) (RPCFrontendPacket.Index args) (Some c);
      EDelete (RPCFrontendPacket.Server args) (RPCFrontendPacket.Index args);
      EConnClose c; EUnlock]).
Proof.
  destruct st as [cs mu busy cl]; simpl. intros -> Hin Hc.
  unfold RPCFrontendPacket.CloseConnection. unfold_M. unfold lookup_conn. simpl.
  rewrite Hin, Hc. simpl. by rewrite Hin.
Qed.

Lemma handler_miss st args e :
  rpcMutex st = false ->
  lookup_conn (connections st) (RPCFrontendPacket.Server args) (RPCFrontendPacket.Index args)
    = None ->
  let t := [ELock; ELoad (RPCFrontendPacket.Server args) (RPCFrontendPacket.Index args) None;
            EUnlock] in
  RPCFrontendPacket.SendPacket args e st = (Ok (Some ErrBadIndex), st, t) /\
  RPCFrontendPacket.CloseConnection args e st = (Ok (Some ErrBadIndex), st, t).
Proof.
  destruct st as [cs mu busy cl]; simpl. intros -> Hnone.
  unfold RPCFrontendPacket.SendPacket, RPCFrontendPacket.CloseConnection. unfold_M. simpl.
  by rewrite Hnone.
Qed.

Lemma lookup_conn_Some cs tag idx c :
  lookup_conn cs tag idx = Some c ->
  exists inner, cs !! tag = Some inner /\ inner !! idx = Some c.
Proof. unfold lookup_conn. destruct (cs !! tag) as [inner|]; [eauto | done]. Qed.

(** X1.  CloseConnection that finds the pair in the table closes the socket
    found there, returns what that close returns, and removes the entry of
    that pair and no other; the mutex is free again and the busy counter and
    the RPC handle are as before. *)
Theorem CloseConnection_hit st args cr c :
  rpcMutex st = false ->
  lookup_conn (connections st) (RPCFrontendPacket.Server args) (RPCFrontendPacket.Index args)
    = Some c ->
  exists st1,
    RPCFrontendPacket.CloseConnection args cr st =
      (Ok cr, st1,
       [ELock; ELoad (RPCFrontendPacket.Server args) (RPCFrontendPacket.Index args) (Some c);
        EDelete (RPCFrontendPacket.Server args) (RPCFrontendPacket.Index args);
        EConnClose c; EUnlock]) /\
    (forall tag idx,
       lookup_conn (connections st1) tag idx =
         if decide ((tag, idx) = (RPCFrontendPacket.Server args, RPCFrontendPacket.Index args))
         then None else lookup_conn (connections st) tag idx) /\
    rpcMutex st1 = false /\ rpcBusyCount st1 = rpcBusyCount st /\ rpcClient st1 = rpcClient st.
Proof.
  intros Hfree Hl. destruct (lookup_conn_Some _ _ _ _ Hl) as (inner & Hin & Hc).
  eexists. split; [by apply CloseConnection_eval|]. simpl.
  split; [|done]. intros tag idx. by apply lookup_conn_delete_eq.
Qed.

Lemma CloseConnection_hit_witness :
  let st := set_connections (insert "gpcm" {[ 1 := 7%nat; 2 := 8%nat ]}) front_up in
  exists st1,
    RPCFrontendPacket.CloseConnection (RPCFrontendPacket.mk "gpcm" 1 []) None st =
      (Ok None, st1,
       [ELock; ELoad "gpcm" 1 (Some 7%nat); EDelete "gpcm" 1; EConnClose 7%nat; EUnlock]) /\
    (forall tag idx,
       lookup_conn (connections st1) tag idx =
         if decide ((tag, idx) = ("gpcm", 1))
         then None else lookup_conn (connections st) tag idx) /\
    rpcMutex st1 = false /\ rpcBusyCount st1 = rpcBusyCount st /\ rpcClient st1 = rpcClient st.
Proof.
  intros st.
  apply (CloseConnection_hit st (RPCFrontendPacket.mk "gpcm" 1 []) None 7%nat); reflexivity.
Defined.

(** X2.  Once CloseConnection has removed a pair, SendPacket and
    CloseConnection for that pair return ErrBadIndex and change nothing: a
    connection is closed through the front at most once. *)
Theorem CloseConnection_then_ErrBadIndex st args cr c (args' : RPCFrontendPacket.t) e :
  rpcMutex st = false ->
  lookup_conn (connections st) (RPCFrontendPacket.Server args) (RPCFrontendPacket.Index args)
    = Some c ->
  RPCFrontendPacket.Server args' = RPCFrontendPacket.Server args ->
  RPCFrontendPacket.Index args' = RPCFrontendPacket.Index args ->
  let st1 := (RPCFrontendPacket.CloseConnection args cr st).1.2 in
  let t := [ELock; ELoad (RPCFrontendPacket.Server args) (RPCFrontendPacket.Index args) None;
            EUnlock] in
  RPCFrontendPacket.SendPacket args' e st1 = (Ok (Some ErrBadIndex), st1, t) /\
  RPCFrontendPacket.CloseConnection args' e st1 = (Ok (Some ErrBadIndex), st1, t).
Proof.
  intros Hfree Hl Hs Hi. destruct (lookup_conn_Some _ _ _ _ Hl) as (inner & Hin & Hc).
  rewrite (CloseConnection_eval _ _ cr _ _ Hfree Hin Hc). simpl.
  rewrite <- Hs, <- Hi. apply handler_miss; [done|]. simpl.
  rewrite Hs, Hi, (lookup_conn_delete_eq _ _ _ _ _ _ Hin). by rewrite decide_True.
Qed.

Lemma CloseConnection_then_ErrBadIndex_witness :
  let st := set_connections (insert "gpcm" {[ 1 := 7%nat; 2 := 8%nat ]}) front_up in
  let st1 := (RPCFrontendPacket.CloseConnection (RPCFrontendPacket.mk "gpcm" 1 []) None st).1.2 in
  let t := [ELock; ELoad "gpcm" 1 None; EUnlock] in
  RPCFrontendPacket.SendPacket (RPCFrontendPacket.mk "gpcm" 1 [Byte.x6f]) None st1
    = (Ok (Some ErrBadIndex), st1, t) /\
  RPCFrontendPacket.CloseConnection (RPCFrontendPacket.mk "gpcm" 1 [Byte.x6f]) None st1
    = (Ok (Some ErrBadIndex), st1, t).
Proof.
  intros st.
  apply (CloseConnection_then_ErrBadIndex st (RPCFrontendPacket.mk "gpcm" 1 []) None 7%nat
           (RPCFrontendPacket.mk "gpcm" 1 [Byte.x6f]) None); reflexivity.
Defined.

(** ** The relay task and the table *)

Lemma handleConnection_open server c addr index st inner :
  rpcMutex st = false ->
  connections st !! rpcName server = Some inner ->
  rpcClient st <> ClientNil ->
  0 <= rpcBusyCount st ->
  handleConnection server c addr index AtOpenLock Resume st =
    (Ok InNewConnection,
     set_rpcBusyCount (rpcBusyCount st + 1)
       (set_connections (insert (rpcName server) (<[index := c]> inner)) st),
     [ELock; EAdd 1; EStore (rpcName server) index c; EUnlock;
      ECall "RPCPacket.NewConnection" (Some (RPCPacket.mk (rpcName server) index addr []))]).
Proof.
  destruct st as [cs mu busy cl]; simpl. intros -> Hin Hcl Hb.
  unfold handleConnection. unfold_M. simpl.
  destruct (busy + 1 <? 0) eqn:Hlt; [lia|]. simpl. rewrite Hin. simpl.
  by destruct cl.
Qed.

Lemma SendPacket_hit st args wr c :
  rpcMutex st = false ->
  lookup_conn (connections st) (RPCFrontendPacket.Server args) (RPCFrontendPacket.Index args)
    = Some c ->
  RPCFrontendPacket.SendPacket args wr st =
    (Ok wr, st,
     [ELock; ELoad (RPCFrontendPacket.Server args) (RPCFrontendPacket.Index args) (Some c);
      EConnWrite c (RPCFrontendPacket.Data args); EUnlock]).
Proof.
  destruct st as [cs mu busy cl]; simpl. intros -> Hl.
  unfold RPCFrontendPacket.SendPacket. unfold_M. simpl. by rewrite Hl.
Qed.

(** X3.  The first step of a relay task stores its socket under its tag and
    index, replacing what was there and leaving every other pair alone, and
    from then on SendPacket for that pair writes to that socket and returns
    what the write returns. *)
Theorem open_then_SendPacket server c addr index st data wr :
  rpcMutex st = false ->
  is_Some (connections st !! rpcName server) ->
  rpcClient st <> ClientNil ->
  0 <= rpcBusyCount st ->
  exists st1 t1,
    handleConnection server c addr index AtOpenLock Resume st = (Ok InNewConnection, st1, t1) /\
    (forall tag idx,
       lookup_conn (connections st1) tag idx =
         if decide ((tag, idx) = (rpcName server, index)) then Some c
         else lookup_conn (connections st) tag idx) /\
    RPCFrontendPacket.SendPacket (RPCFrontendPacket.mk (rpcName server) index data) wr st1 =
      (Ok wr, st1,
       [ELock; ELoad (rpcName server) index (Some c); EConnWrite c data; EUnlock]).
Proof.
  intros Hfree [inner Hin] Hcl Hb.
  eexists _, _. split; [by apply handleConnection_open|].
  assert (Hlk : forall tag idx,
            lookup_conn (<[rpcName server := <[index := c]> inner]> (connections st)) tag idx =
              if decide ((tag, idx) = (rpcName server, index)) then Some c
              else lookup_conn (connections st) tag idx)
    by (intros; by apply lookup_conn_store_eq).
  split; [exact Hlk|].
  apply (SendPacket_hit _ (RPCFrontendPacket.mk (rpcName server) index data)); [done|].
  simpl. rewrite Hlk. by rewrite decide_True.
Qed.

Lemma open_then_SendPacket_witness :
  exists st1 t1,
    handleConnection gpcm 7%nat "192.0.2.1:5000" 1 AtOpenLock Resume front_up
      = (Ok InNewConnection, st1, t1) /\
    (forall tag idx,
       lookup_conn (connections st1) tag idx =
         if decide ((tag, idx) = (rpcName gpcm, 1)) then Some 7%nat
         else lookup_conn (connections front_up) tag idx) /\
    RPCFrontendPacket.SendPacket (RPCFrontendPacket.mk (rpcName gpcm) 1 [Byte.x6f]) None st1 =
      (Ok None, st1, [ELock; ELoad (rpcName gpcm) 1 (Some 7%nat); EConnWrite 7%nat [Byte.x6f];
                      EUnlock]).
Proof.
  apply (open_then_SendPacket gpcm 7%nat "192.0.2.1:5000" 1 front_up [Byte.x6f] None).
  - reflexivity.
  - vm_compute. eauto.
  - discriminate.
  - vm_compute. discriminate.
Defined.

Section RelayReturn.

Variables (server : serverInfo) (c : conn) (addr : string) (index : Z).

(** What a completed step does to the mutex and to the busy counter. *)
Lemma handleConnection_sync p resp st p1 st1 t1 :
  handleConnection server c addr index p resp st = (Ok p1, st1, t1) ->
  rpcMutex st1 = rpcMutex st /\
  rpcBusyCount st1 = rpcBusyCount st + Z.b2z (in_call p1) - Z.b2z (in_call p) /\
  (at_lock p = true -> rpcMutex st = false).
Proof.
  intros H. relay_inv H; simpl; repeat split; lia.
Qed.

Lemma handleConnection_removed p resp st p1 st1 t1 :
  handleConnection server c addr index p resp st = (Ok p1, st1, t1) ->
  removed p1 = true ->
  lookup_conn (connections st1) (rpcName server) index = None \/
  (removed p = true /\ connections st1 = connections st).
Proof.
  intros H. relay_inv H; simpl; try done; intros _; auto.
  all: left; unfold lookup_conn.
  all: first [ rewrite lookup_insert_eq; apply lookup_delete_eq
             | match goal with Hn : _ !! _ = None |- _ => by rewrite Hn end ].
Qed.

Lemma run_return rs : forall p st st' t,
  run (handleConnection server c addr index) p rs st = (Ok Returned, st', t) ->
  rpcMutex st' = rpcMutex st /\
  rpcBusyCount st' = rpcBusyCount st - Z.b2z (in_call p) /\
  count (is_close c) t = (match p with Returned => 0 | _ => 1 end)%nat /\
  ((removed p = true -> lookup_conn (connections st) (rpcName server) index = None) ->
   lookup_conn (connections st') (rpcName server) index = None).
Proof.
  induction rs as [|r rs IH]; intros p st st' t Hrun.
  - rewrite run_nil in Hrun. inversion Hrun; subst. simpl. repeat split; [lia | auto].
  - rewrite run_cons in Hrun.
    destruct (handleConnection server c addr index p r st) as [[res1 st1] t1] eqn:Hstep.
    destruct res1 as [p1| |code]; try discriminate.
    destruct (run _ p1 rs st1) as [[res2 st2] t2] eqn:Hrest.
    inversion Hrun; subst.
    destruct (IH _ _ _ _ Hrest) as (Hm & Hb & Hc & Hl).
    destruct (handleConnection_sync _ _ _ _ _ _ Hstep) as (Hm1 & Hb1 & _).
    destruct (handleConnection_effect _ _ _ _ _ _ _ _ _ _ Hstep) as (Hcl & Hpc & _).
    destruct (Hpc p1 eq_refl) as [_ Hp].
    split; [congruence|]. split; [lia|]. split.
    + rewrite count_app, Hcl, Hc. rewrite decide_True by done.
      destruct p; try done; destruct p1; try done.
      all: apply run_Returned in Hrest as (-> & _); done.
    + intros Hrem. apply Hl. intros Hr1.
      destruct (handleConnection_removed _ _ _ _ _ _ Hstep Hr1) as [?|[Hr Hsame]]; [done|].
      rewrite Hsame. auto.
Qed.

(** X4.  A relay task that returns leaves no entry under its tag and index,
    has called Close on its socket exactly once, has released the mutex, and
    has taken from the busy counter what it added to it. *)
Theorem relay_return rs st st' t :
  run (handleConnection server c addr index) AtOpenLock rs st = (Ok Returned, st', t) ->
  lookup_conn (connections st') (rpcName server) index = None /\
  count (is_close c) t = 1%nat /\
  rpcMutex st' = false /\
  rpcBusyCount st' = rpcBusyCount st.
Proof.
  intros Hrun. destruct (run_return _ _ _ _ _ Hrun) as (Hm & Hb & Hc & Hl).
  split; [by apply Hl|]. split; [done|]. split; [|simpl in Hb; lia].
  rewrite Hm. destruct rs as [|r rs]; [by rewrite run_nil in Hrun|].
  rewrite run_cons in Hrun.
  destruct (handleConnection server c addr index AtOpenLock r st) as [[res1 st1] t1] eqn:Hstep.
  destruct res1 as [p1| |code]; try discriminate.
  by destruct (handleConnection_sync _ _ _ _ _ _ Hstep) as (_ & _ & ->).
Qed.

End RelayReturn.

Lemma relay_return_witness :
  let rs := [Resume; CallRet None; ReadRet [Byte.x01] None; Resume; CallRet None;
             ReadRet [] (Some (ErrOther "EOF")); Resume; CallRet None] in
  let out := run (handleConnection gpcm 7%nat "192.0.2.1:5000" 1) AtOpenLock rs front_up in
  lookup_conn (connections out.1.2) (rpcName gpcm) 1 = None /\
  count (is_close 7%nat) out.2 = 1%nat /\
  rpcMutex out.1.2 = false /\
  rpcBusyCount out.1.2 = rpcBusyCount front_up.
Proof.
  intros rs out.
  apply (relay_return gpcm 7%nat "192.0.2.1:5000" 1 rs front_up out.1.2 out.2).
  vm_compute. reflexivity.
Defined.

(** ** The relay task and the mutex *)

(** X5.  In every step of a relay task, the accesses to the table lie
    between a lock and the unlock that follows it in the same step; a step
    that completes leaves the mutex as it found it, free when the step took
    it, so that the task never holds the mutex while it is parked in a read
    or in an outbound call; and a step that has to take the mutex waits,
    with no effect, while the mutex is held. *)
Theorem relay_mutex_discipline server c addr index p resp st res st1 t1 :
  handleConnection server c addr index p resp st = (res, st1, t1) ->
  under_mutex false t1 = true /\
  (forall p1, res = Ok p1 ->
     rpcMutex st1 = rpcMutex st /\ (at_lock p = true -> rpcMutex st1 = false)) /\
  (at_lock p = true -> rpcMutex st = true -> res = Blocked /\ st1 = st /\ t1 = []).
Proof.
  intros H. relay_inv H; simpl; repeat split; try done; intros; done.
Qed.

Lemma relay_mutex_discipline_witness :
  let out := handleConnection gpcm 7%nat "192.0.2.1:5000" 1 AtOpenLock Resume front_up in
  under_mutex false out.2 = true /\
  (forall p1, out.1.1 = Ok p1 ->
     rpcMutex out.1.2 = rpcMutex front_up /\
     (at_lock AtOpenLock = true -> rpcMutex out.1.2 = false)) /\
  (at_lock AtOpenLock = true -> rpcMutex front_up = true ->
   out.1.1 = Blocked /\ out.1.2 = front_up /\ out.2 = []).
Proof.
  intros out.
  apply (relay_mutex_discipline gpcm 7%nat "192.0.2.1:5000" 1 AtOpenLock Resume front_up
           out.1.1 out.1.2 out.2).
  vm_compute. reflexivity.
Defined.

(** ** The order of the calls of a relay task *)

Lemma methods_app t1 t2 : methods (t1 ++ t2) = methods t1 ++ methods t2.
Proof. induction t1 as [|e t1 IH]; [done|]. destruct e; simpl; by rewrite ?IH. Qed.

Lemma ordered_retire a : ordered Retired [] = true -> ordered a [] = true.
Proof. by destruct a. Qed.

Section RelayOrder.

Variables (server : serverInfo) (c : conn) (addr : string) (index : Z).

Lemma step_ordered p resp st res st1 t1 ms :
  handleConnection server c addr index p resp st = (res, st1, t1) ->
  match res with
  | Ok p1 => ordered (announced_at p1) ms = true
  | _ => ms = []
  end ->
  ordered (announced_at p) (methods t1 ++ ms) = true.
Proof.
  intros H. relay_inv H; simpl; try done; try (intros ->; done).
  all: destruct ms; done.
Qed.

Lemma run_ordered rs : forall p st res st' t,
  run (handleConnection server c addr index) p rs st = (res, st', t) ->
  ordered (announced_at p) (methods t) = true.
Proof.
  induction rs as [|r rs IH]; intros p st res st' t Hrun.
  - rewrite run_nil in Hrun. by inversion Hrun.
  - rewrite run_cons in Hrun.
    destruct (handleConnection server c addr index p r st) as [[res1 st1] t1] eqn:Hstep.
    destruct res1 as [p1| |code].
    + destruct (run _ p1 rs st1) as [[res2 st2] t2] eqn:Hrest.
      inversion Hrun; subst. rewrite methods_app.
      apply (step_ordered _ _ _ _ _ _ _ Hstep). simpl. by eapply IH.
    + inversion Hrun; subst. rewrite <- (app_nil_r (methods t)).
      by apply (step_ordered _ _ _ _ _ _ _ Hstep).
    + inversion Hrun; subst. rewrite <- (app_nil_r (methods t)).
      by apply (step_ordered _ _ _ _ _ _ _ Hstep).
Qed.

(** X6.  Whatever the socket and the back answer, the calls a relay task
    issues are NewConnection first, then HandlePacket any number of times,
    then at most one CloseConnection, and none after it. *)
Theorem relay_call_order rs st res st' t :
  run (handleConnection server c addr index) AtOpenLock rs st = (res, st', t) ->
  ordered Unannounced (methods t) = true.
Proof. apply run_ordered. Qed.

End RelayOrder.

Lemma relay_call_order_witness :
  let rs := [Resume; CallRet None; ReadRet [Byte.x01] None; Resume; CallRet None;
             ReadRet [] (Some (ErrOther "EOF")); Resume; CallRet None] in
  let out := run (handleConnection gpcm 7%nat "192.0.2.1:5000" 1) AtOpenLock rs front_up in
  ordered Unannounced (methods out.2) = true.
Proof.
  intros rs out.
  apply (relay_call_order gpcm 7%nat "192.0.2.1:5000" 1 rs front_up out.1.1 out.1.2 out.2).
  vm_compute. reflexivity.
Defined.

(** ** The supervisor of the back process *)

(** X7.  waitForBackend dials until a dial succeeds: failed dials change
    nothing and leave no trace; on the first success it stores the handle and
    then unlocks the mutex.  The mutex has to be held when that happens:
    otherwise the handle is stored and the unlock is a fatal error. *)
Theorem waitForBackend_spin (errs : list error) st :
  run dialer_step InDial (map (fun e => DialRet (Some e)) errs ++ [DialRet None]) st =
    if rpcMutex st
    then (Ok DialerReturned, set_rpcMutex false (set_rpcClient ClientOpen st),
          [EClientSet; EUnlock])
    else (Crash 2, set_rpcClient ClientOpen st,
          [EClientSet; EPanic "sync: unlock of unlocked mutex"]).
Proof.
  induction errs as [|e errs IH]; simpl map; simpl app.
  - destruct st as [cs mu busy cl]. by destruct mu.
  - rewrite run_cons. simpl. rewrite IH. by destruct (rpcMutex st).
Qed.

Lemma run_SdReturned rs err st res st1 t1 :
  run RPCFrontendPacket.ShutdownBackend (RPCFrontendPacket.SdReturned err) rs st
    = (Ok res, st1, t1) ->
  rs = [] /\ st1 = st /\ t1 = [].
Proof.
  destruct rs as [|r rs].
  - rewrite run_nil. by intros [= <- <- <-].
  - rewrite run_cons. simpl. by destruct r.
Qed.

Lemma ReloadBackend_simulates rs : forall q st err st1 t1 tail,
  run RPCFrontendPacket.ShutdownBackend q rs st
    = (Ok (RPCFrontendPacket.SdReturned err), st1, t1) ->
  (forall e, q <> RPCFrontendPacket.SdReturned e) ->
  run ReloadBackend (RlShutdown q) (rs ++ tail) st =
    let '(res, st2, t2) := run ReloadBackend RlInExec tail st1 in (res, st2, t1 ++ t2).
Proof.
  induction rs as [|r rs IH]; intros q st err st1 t1 tail Hrun Hq.
  - rewrite run_nil in Hrun. inversion Hrun; subst. by destruct (Hq err).
  - rewrite run_cons in Hrun. simpl app. rewrite run_cons.
    cbn [ReloadBackend]. unfold mbind at 1, M_bind at 1.
    destruct (RPCFrontendPacket.ShutdownBackend q r st) as [[res1 st2] t2] eqn:Hstep.
    destruct res1 as [q1| |code]; try discriminate.
    destruct (run RPCFrontendPacket.ShutdownBackend q1 rs st2) as [[res3 st3] t3] eqn:Hrest.
    inversion Hrun; subst.
    destruct q1 as [| | | |e1].
    5: { apply run_SdReturned in Hrest as (-> & -> & ->). simpl.
         rewrite !app_nil_r. by destruct (run ReloadBackend RlInExec tail _) as [[? ?] ?]. }
    all: simpl; rewrite app_nil_r;
      rewrite (IH _ _ _ _ _ tail Hrest) by done;
      destruct (run ReloadBackend RlInExec tail _) as [[? ?] ?];
      by rewrite app_assoc.
Qed.

(** X8.  ReloadBackend does what ShutdownBackend does, in the same states
    and with the same trace, and then starts a back process with the reload
    flag; it takes no lock and releases none of its own.  It returns nil when
    the process has started.  When the executable path or the start fails,
    the front exits with status 1, and that is after the old back has been
    told to shut down and the RPC handle has been closed. *)
Theorem ReloadBackend_after_ShutdownBackend rs st err st1 t1 (exe start : option error) :
  run RPCFrontendPacket.ShutdownBackend RPCFrontendPacket.SdAtLock rs st
    = (Ok (RPCFrontendPacket.SdReturned err), st1, t1) ->
  run ReloadBackend (RlShutdown RPCFrontendPacket.SdAtLock) (rs ++ [ExecRet exe start]) st =
    match exe, start with
    | Some _, _ =>
        (Crash 1, st1, t1 ++ [ELog "Error" "Failed to get executable path:"; EExit 1])
    | None, Some _ =>
        (Crash 1, st1,
         t1 ++ [ELog "Info" "Running from"; EExec ["backend"; "reload"];
                ELog "Error" "Failed to start backend process:"; EExit 1])
    | None, None =>
        (Ok (RlReturned None), st1,
         t1 ++ [ELog "Info" "Running from"; EExec ["backend"; "reload"]])
    end.
Proof.
  intros Hrun. rewrite (ReloadBackend_simulates _ _ _ _ _ _ _ Hrun) by done.
  by destruct exe, start.
Qed.

Lemma ReloadBackend_after_ShutdownBackend_witness :
  let rs := [Resume; Resume; CallRet None; CloseRet None] in
  let out := run RPCFrontendPacket.ShutdownBackend RPCFrontendPacket.SdAtLock rs front_up in
  run ReloadBackend (RlShutdown RPCFrontendPacket.SdAtLock) (rs ++ [ExecRet None None]) front_up
    = (Ok (RlReturned None), out.1.2,
       out.2 ++ [ELog "Info" "Running from"; EExec ["backend"; "reload"]]).
Proof.
  intros rs out.
  apply (ReloadBackend_after_ShutdownBackend rs front_up None out.1.2 out.2 None None).
  vm_compute. reflexivity.
Defined.

(** ** The accept loop *)

Lemma started_accepted {S} server rs : forall count (st : S),
  map (fun r => (r_conn r, r_addr r)) (started server (InAccept count) rs st) = accepted rs /\
  Forall (fun r => r_server r = server /\ r_pc r = AtOpenLock)
    (started server (InAccept count) rs st).
Proof.
  induction rs as [|x rs IH]; intros count st; [by split|].
  rewrite started_accept_cons. destruct x; try by split.
  destruct err; simpl; [apply IH|].
  destruct (IH (uint64_incr count) st) as [-> Hall]. split; [done|]. by constructor.
Qed.

(** X9.  A listener that has bound starts one relay task for each socket it
    accepts, in the order of the accepts, on that socket, with the address of
    its peer and for the listener's own server, whatever SetKeepAlive
    returned; an accept that fails starts nothing and does not end the loop.
    A listener that failed to bind never starts a relay task. *)
Theorem listener_starts_accepted server rs (e : error) (st : front) :
  let rl := started server InListen (ListenRet None :: rs) st in
  map (fun r => (r_conn r, r_addr r)) rl = accepted rs /\
  Forall (fun r => r_server r = server /\ r_pc r = AtOpenLock) rl /\
  started server InListen (ListenRet (Some e) :: rs) st = [].
Proof.
  intros rl. subst rl.
  change (started server InListen (ListenRet None :: rs) st)
    with (started server (InAccept 0) rs st).
  destruct (started_accepted server rs 0 st) as [Hm Hall].
  split; [done|]. split; [done|].
  change (started server InListen (ListenRet (Some e) :: rs) st)
    with (started server ListenerReturned rs st).
  destruct rs as [|r rs]; [done|]. simpl. by destruct r.
Qed.

(** ** The command line *)




(** X11.  handleCommand dials at most once, and not at all with fewer than
    two arguments or a first argument other than f and b; it closes the
    client exactly when the dial succeeded, once, as its last action; and it
    calls at most one method. *)
Theorem handleCommand_client prog args dial call :
  let t := handleCommand prog args dial call in
  (count is_cdial t <= 1)%nat /\
  (count is_cdial t = 1%nat <->
     exists a0 a1 rest, args = a0 :: a1 :: rest /\ (a0 = "f" \/ a0 = "b")) /\
  count is_cclose t = match dial with Some _ => 0%nat | None => count is_cdial t end /\
  (count is_cclose t = 1%nat -> last t = Some CClose) /\
  (count is_ccall t <= 1)%nat.
Proof.
  unfold handleCommand.
  destruct args as [|a0 [|a1 rest]]; simpl.
  1,2: repeat split; try lia; try done; try (by destruct dial); by intros (? & ? & ? & ? & _).
  destruct (decide (a0 = "f" \/ a0 = "b")) as [Hfb|Hfb]; simpl.
  2: { repeat split; try lia; try done; try (by destruct dial).
       intros (? & ? & ? & [= -> _ _] & ?). done. }
  assert (Hex : exists a2 a3 rest', a0 :: a1 :: rest = a2 :: a3 :: rest' /\ (a2 = "f" \/ a2 = "b"))
    by eauto.
  destruct dial as [e|]; simpl; [repeat split; try lia; done|].
  destruct (decide (a0 = "b")); simpl; [repeat split; try lia; done|].
  destruct (decide (a1 = "backend")); simpl; [|repeat split; try lia; done].
  destruct call; simpl; repeat split; try lia; done.
Qed.

(** ** The dispatch of the back *)

Section RelayCalls.

Variables (server : serverInfo) (c : conn) (addr : string) (index : Z).

Lemma step_relay_calls p resp st res st1 t1 :
  handleConnection server c addr index p resp st = (res, st1, t1) ->
  Forall (relay_call server addr index) t1.
Proof.
  intros H. relay_inv H; repeat apply Forall_cons_2; try apply Forall_nil_2; simpl; try done.
  all: split; [auto | eexists; reflexivity].
Qed.

Lemma run_relay_calls rs : forall p st res st' t,
  run (handleConnection server c addr index) p rs st = (res, st', t) ->
  Forall (relay_call server addr index) t.
Proof.
  induction rs as [|r rs IH]; intros p st res st' t Hrun.
  - rewrite run_nil in Hrun. inversion Hrun. constructor.
  - rewrite run_cons in Hrun.
    destruct (handleConnection server c addr index p r st) as [[res1 st1] t1] eqn:Hstep.
    apply step_relay_calls in Hstep.
    destruct res1 as [p1| |code]; [|by inversion Hrun; subst..].
    destruct (run _ p1 rs st1) as [[res2 st2] t2] eqn:Hrest.
    inversion Hrun; subst. apply Forall_app. split; [done|]. by eapply IH.
Qed.

(** X12.  Every call a relay task of one of the four servers issues is
    routed by the back to exactly one call into a protocol module, the module
    named as that server, with the index of that connection, and returns nil:
    the tags the front forwards under are tags the back dispatches on. *)
Theorem relay_calls_dispatched rs st res st' t m a :
  server ∈ servers ->
  run (handleConnection server c addr index) AtOpenLock rs st = (res, st', t) ->
  ECall m a ∈ t ->
  exists mc, back_serve (ECall m a) = Some ([mc], None) /\
             module_of mc = (rpcName server, index).
Proof.
  intros Hsrv Hrun Hin.
  pose proof (run_relay_calls _ _ _ _ _ _ Hrun) as Hall.
  rewrite Forall_forall in Hall. destruct (Hall _ Hin) as [Hm [data ->]].
  unfold servers in Hsrv.
  repeat (apply elem_of_cons in Hsrv as [->|Hsrv]); [..|by apply elem_of_nil in Hsrv].
  all: destruct Hm as [-> | [-> | ->]]; eexists; split; reflexivity.
Qed.

End RelayCalls.

Lemma relay_calls_dispatched_witness :
  exists mc,
    back_serve (ECall "RPCPacket.NewConnection"
                  (Some (RPCPacket.mk "gpcm" 1 "192.0.2.1:5000" []))) = Some ([mc], None) /\
    module_of mc = (rpcName gpcm, 1).
Proof.
  apply (relay_calls_dispatched gpcm 7%nat "192.0.2.1:5000" 1 [Resume] front_up
           (Ok InNewConnection)
           (run (handleConnection gpcm 7%nat "192.0.2.1:5000" 1) AtOpenLock [Resume] front_up).1.2
           (run (handleConnection gpcm 7%nat "192.0.2.1:5000" 1) AtOpenLock [Resume] front_up).2).
  - unfold gpcm, servers. right. left.
  - vm_compute. reflexivity.
  - vm_compute. do 4 right. left.
Defined.

(** X13.  For a tag other than the four, the three connection methods of
    the back call no protocol module and return nil; and HandlePacket hands
    the address of the peer to serverbrowser only. *)
Theorem back_ignores_unknown_tag (args : RPCPacket.t) :
  (RPCPacket.Server args ∉ tags ->
   RPCPacket_NewConnection args = ([], None) /\
   RPCPacket_HandlePacket args = ([], None) /\
   RPCPacket_CloseConnection args = ([], None)) /\
  (forall module i data address,
     MHandlePacket module i data (Some address) ∈ (RPCPacket_HandlePacket args).1 ->
     module = "serverbrowser" /\ RPCPacket.Server args = "serverbrowser" /\
     address = RPCPacket.Address args).
Proof.
  split.
  - intros Htag. unfold tags, servers in Htag. simpl in Htag.
    rewrite !not_elem_of_cons in Htag. destruct Htag as (? & ? & ? & ? & _).
    unfold RPCPacket_NewConnection, RPCPacket_HandlePacket, RPCPacket_CloseConnection.
    by rewrite !decide_False by done.
  - intros module i data address. unfold RPCPacket_HandlePacket. simpl.
    repeat case_decide; intros Hin; try (by apply elem_of_nil in Hin);
      apply list_elem_of_singleton in Hin; by inversion Hin.
Qed.

Lemma back_ignores_unknown_tag_witness :
  RPCPacket_NewConnection (RPCPacket.mk "natneg" 1 "192.0.2.1:5000" []) = ([], None) /\
  RPCPacket_HandlePacket (RPCPacket.mk "natneg" 1 "192.0.2.1:5000" []) = ([], None) /\
  RPCPacket_CloseConnection (RPCPacket.mk "natneg" 1 "192.0.2.1:5000" []) = ([], None).
Proof.
  apply (back_ignores_unknown_tag (RPCPacket.mk "natneg" 1 "192.0.2.1:5000" [])).
  apply (bool_decide_unpack _). vm_compute. exact I.
Defined.


(** ** The busy counter and the mutex in the running front *)

Lemma inflight_insert_fresh (m : gmap conn relay) c r :
  m !! c = None -> inflight (<[c := r]> m) = inflight m + Z.b2z (in_call (r_pc r)).
Proof.
  intros Hc. unfold inflight. rewrite map_fold_insert_L; [done | intros; lia | done].
Qed.

Lemma inflight_insert (m : gmap conn relay) c r r' :
  m !! c = Some r ->
  inflight (<[c := r']> m) = inflight m + Z.b2z (in_call (r_pc r')) - Z.b2z (in_call (r_pc r)).
Proof.
  intros Hc. rewrite <- (insert_delete_eq m c r').
  rewrite <- (insert_delete_id m c r Hc) at 2.
  rewrite !inflight_insert_fresh by apply lookup_delete_eq. lia.
Qed.

Lemma inflight_nonneg (m : gmap conn relay) : 0 <= inflight m.
Proof.
  unfold inflight. apply (map_fold_weak_ind (fun n _ => 0 <= n)); [done|].
  intros c r m' n _ Hn. destruct (in_call (r_pc r)); simpl; lia.
Qed.

Lemma inflight_zero (m : gmap conn relay) c r :
  inflight m = 0 -> m !! c = Some r -> in_call (r_pc r) = false.
Proof.
  intros Hz Hc. rewrite <- (insert_delete_id m c r Hc) in Hz.
  rewrite inflight_insert_fresh in Hz by apply lookup_delete_eq.
  pose proof (inflight_nonneg (delete c m)). destruct (in_call (r_pc r)); simpl in *; [lia | done].
Qed.

Lemma count_insert {A} (f : A -> bool) (l : list A) i x y :
  l !! i = Some x ->
  Z.of_nat (count f (<[i := y]> l)) = Z.of_nat (count f l) + Z.b2z (f y) - Z.b2z (f x).
Proof.
  revert i. induction l as [|a l IH]; intros i Hi; [done|].
  destruct i as [|i]; simpl in *.
  - inversion Hi; subst. destruct (f x), (f y); simpl; lia.
  - specialize (IH i Hi). destruct (f a); simpl; lia.
Qed.

Lemma count_pos {A} (f : A -> bool) (l : list A) x :
  x ∈ l -> f x = true -> (1 <= count f l)%nat.
Proof.
  induction 1 as [x l|x y l _ IH]; simpl; intros Hf.
  - rewrite Hf. lia.
  - specialize (IH Hf). lia.
Qed.

Lemma elem_of_insert_inv {A} (l : list A) i x y :
  x ∈ <[i := y]> l -> x = y \/ x ∈ l.
Proof.
  revert i. induction l as [|a l IH]; intros i; [auto|].
  destruct i as [|i]; simpl; rewrite !elem_of_cons; [tauto|].
  intros [->|H]; [auto|]. destruct (IH _ H); auto.
Qed.

Lemma count_go_waitForBackend t :
  count pending_dial (go_waitForBackend t) = length (go_waitForBackend t).
Proof.
  induction t as [|e t IH]; [done|]. destruct e; simpl; try done.
  case_decide; simpl; [by rewrite IH | done].
Qed.

(** What completed steps of the handlers, the dialers and the
    administrative calls do to the mutex and to the busy counter. *)
Lemma handler_sync args e st r st1 t1 :
  RPCFrontendPacket.SendPacket args e st = (Ok r, st1, t1) \/
  RPCFrontendPacket.CloseConnection args e st = (Ok r, st1, t1) ->
  rpcMutex st1 = rpcMutex st /\ rpcBusyCount st1 = rpcBusyCount st.
Proof.
  destruct st as [cs mu busy cl].
  unfold RPCFrontendPacket.SendPacket, RPCFrontendPacket.CloseConnection. unfold_M. simpl.
  destruct mu; simpl; [by intros [?|?]|].
  destruct (lookup_conn cs _ _) as [c|]; simpl.
  2: by intros [[= <- <- <-]|[= <- <- <-]].
  destruct (cs !! RPCFrontendPacket.Server args); simpl;
    by intros [[= <- <- <-]|[= <- <- <-]].
Qed.

Lemma dialer_sync p resp st p1 st1 t1 :
  dialer_step p resp st = (Ok p1, st1, t1) ->
  rpcBusyCount st1 = rpcBusyCount st /\
  Z.b2z (rpcMutex st1) =
    Z.b2z (rpcMutex st) + Z.b2z (pending_dial p1) - Z.b2z (pending_dial p) /\
  (p = InDial -> p1 = DialerReturned -> rpcClient st1 = ClientOpen).
Proof.
  destruct st as [cs mu busy cl].
  unfold dialer_step, startBackendProcess, waitForBackend. unfold_M.
  destruct p, resp; simpl; try done.
  - destruct exe, start, reload, wait; simpl; try done;
      intros [= <- <- <-]; simpl; repeat split; try done; lia.
  - destruct err; simpl; [intros [= <- <- <-]; simpl; repeat split; try done; lia|].
    destruct mu; simpl; [|done]. intros [= <- <- <-]; simpl; repeat split; try done; lia.
Qed.

Lemma ShutdownBackend_sync q resp st q1 st1 t1 :
  RPCFrontendPacket.ShutdownBackend q resp st = (Ok q1, st1, t1) ->
  rpcBusyCount st1 = rpcBusyCount st /\
  Z.b2z (rpcMutex st1) =
    Z.b2z (rpcMutex st) + Z.b2z (shutdown_holds q1)
    + Z.of_nat (length (go_waitForBackend t1)) - Z.b2z (shutdown_holds q) /\
  (shutdown_past_wait q1 = true -> shutdown_past_wait q = true \/ rpcBusyCount st = 0) /\
  (match q1 with RPCFrontendPacket.SdReturned _ => True | _ => go_waitForBackend t1 = [] end).
Proof.
  destruct st as [cs mu busy cl].
  unfold RPCFrontendPacket.ShutdownBackend. unfold_M.
  destruct q, resp; simpl; try done.
  - destruct mu; simpl; [done|]. by intros [= <- <- <-].
  - destruct (busy =? 0) eqn:Hz; simpl; [|done].
    destruct cl; simpl; try done; intros [= <- <- <-]; simpl; repeat split; auto with lia.
  - destruct err as [e|]; simpl;
      try destruct (Contains (Error e) RPCFrontendPacket.forcibly_closed); simpl;
      destruct cl; simpl; try done; intros [= <- <- <-]; simpl; repeat split; auto with lia.
  - destruct err; simpl; intros [= <- <- <-]; simpl; repeat split; auto with lia.
Qed.

Lemma startBackendProcess_sync reload resp st p1 st1 t1 :
  startBackendProcess reload false resp st = (Ok p1, st1, t1) ->
  st1 = st /\ go_waitForBackend t1 = [].
Proof.
  unfold startBackendProcess. unfold_M.
  destruct resp; simpl; try done.
  destruct exe, start, reload; simpl; try done; by intros [= <- <- <-].
Qed.

Lemma go_waitForBackend_app t1 t2 :
  go_waitForBackend (t1 ++ t2) = go_waitForBackend t1 ++ go_waitForBackend t2.
Proof. unfold go_waitForBackend. by rewrite flat_map_app. Qed.

Lemma admin_sync p resp st p1 st1 t1 :
  admin_step p resp st = (Ok p1, st1, t1) ->
  rpcBusyCount st1 = rpcBusyCount st /\
  Z.b2z (rpcMutex st1) =
    Z.b2z (rpcMutex st) + Z.b2z (holds_mutex p1)
    + Z.of_nat (length (go_waitForBackend t1)) - Z.b2z (holds_mutex p) /\
  (past_wait p1 = true -> past_wait p = true \/ rpcBusyCount st = 0).
Proof.
  unfold admin_step, ReloadBackend.
  destruct p as [q|[q| |err]].
  - unfold mbind, M_bind at 1.
    destruct (RPCFrontendPacket.ShutdownBackend q resp st) as [[r2 st2] t2] eqn:Hsd.
    destruct r2 as [q1| |]; simpl; try done. intros [= <- <- <-].
    destruct (ShutdownBackend_sync _ _ _ _ _ _ Hsd) as (Hb & Hm & Hw & _).
    rewrite app_nil_r. done.
  - unfold mbind, M_bind at 1. unfold mbind, M_bind at 1.
    destruct (RPCFrontendPacket.ShutdownBackend q resp st) as [[r2 st2] t2] eqn:Hsd.
    destruct r2 as [q1| |]; simpl; try done.
    destruct (ShutdownBackend_sync _ _ _ _ _ _ Hsd) as (Hb & Hm & Hw & Hg).
    destruct q1; simpl; intros [= <- <- <-]; rewrite !app_nil_r;
      unfold holds_mutex, past_wait in *; simpl in *; repeat split; auto; lia.
  - unfold mbind, M_bind at 1. unfold mbind, M_bind at 1.
    destruct (startBackendProcess true false resp st) as [[r2 st2] t2] eqn:Hsp.
    destruct r2 as [q1| |]; simpl; try done. intros [= <- <- <-].
    apply startBackendProcess_sync in Hsp as [-> Hg]. rewrite !app_nil_r, Hg.
    unfold holds_mutex, past_wait. simpl. repeat split; auto; lia.
  - unfold_M. done.
Qed.

Lemma handleConnection_call_after_lock server c addr index p resp st p1 st1 t1 :
  handleConnection server c addr index p resp st = (Ok p1, st1, t1) ->
  in_call p1 = true -> at_lock p = true.
Proof. intros H. relay_inv H; done. Qed.

Lemma past_wait_holds p : past_wait p = true -> holds_mutex p = true.
Proof. unfold past_wait, holds_mutex. destruct (shutdown_of p) as [[]|]; done. Qed.

Lemma sync_held s p :
  sync_inv s -> p ∈ admins s -> past_wait p = true -> rpcMutex (shared s) = true.
Proof.
  intros [_ Hm _] Hin Hp. unfold owners in Hm.
  pose proof (count_pos holds_mutex _ _ Hin (past_wait_holds _ Hp)).
  destruct (rpcMutex (shared s)); [done | simpl in Hm; lia].
Qed.

Lemma sync_step s l s' : sync_inv s -> sys_step s l = Some s' -> halted s' = None -> sync_inv s'.
Proof.
  intros Hsync. pose proof Hsync as [Hb Hm Hd]. unfold sys_step.
  destruct (halted s) eqn:Hrun; [done|].
  destruct l as [tag resp|c resp|i resp|args wr|args cr|reload|i resp].
  - destruct (listeners s !! tag) as [[server p]|]; [|done].
    destruct (fresh s resp) eqn:Hfresh; [|done].
    intros Hs Hlive. apply commit_inv in Hs as (res & st & t & Hout & Hs).
    destruct (frontendListen_effect _ _ _ _ _ _ _ Hout) as (-> & _ & Hstart).
    destruct Hs as [([p' started] & -> & ->)|(code & -> & ->)]; [|done].
    destruct started as [r|]; [|by split].
    destruct (Hstart _ _ eq_refl) as (c & addr & ka & -> & Hc & Hpc).
    simpl in Hfresh. apply bool_decide_eq_true_1 in Hfresh.
    assert (Hfl : inflight (<[r_conn r := r]> (relays s)) = inflight (relays s)).
    { rewrite Hc, inflight_insert_fresh, Hpc by done. simpl. lia. }
    split; simpl; [by rewrite Hfl | done | by rewrite Hfl].
  - destruct (relays s !! c) as [r|] eqn:Hrel; [|done].
    intros Hs Hlive. apply commit_inv in Hs as (res & st & t & Hout & Hs).
    destruct Hs as [(p' & -> & ->)|(code & -> & ->)]; [|done].
    destruct (handleConnection_sync _ _ _ _ _ _ _ _ _ _ Hout) as (Hm1 & Hb1 & Hlock).
    pose proof (handleConnection_call_after_lock _ _ _ _ _ _ _ _ _ _ Hout) as Hcall.
    assert (Hfl : inflight (<[c := set_pc p' r]> (relays s)) =
                  inflight (relays s) + Z.b2z (in_call p') - Z.b2z (in_call (r_pc r))).
    { by rewrite (inflight_insert _ _ _ _ Hrel). }
    split; simpl.
    + rewrite Hfl. lia.
    + by rewrite Hm1.
    + intros (q & Hq & Hpw). rewrite Hfl.
      pose proof (sync_held _ _ Hsync Hq Hpw) as Hheld.
      assert (Hz : inflight (relays s) = 0) by (apply Hd; eauto).
      pose proof (inflight_zero _ _ _ Hz Hrel) as Hnc. rewrite Hnc.
      destruct (in_call p') eqn:Hp'; [|simpl; lia].
      specialize (Hlock (Hcall eq_refl)). congruence.
  - destruct (dialers s !! i) as [p|] eqn:Hdi; [|done].
    intros Hs Hlive. apply commit_inv in Hs as (res & st & t & Hout & Hs).
    destruct Hs as [(p' & -> & ->)|(code & -> & ->)]; [|done].
    destruct (dialer_sync _ _ _ _ _ _ Hout) as (Hb1 & Hm1 & _).
    split; simpl; [congruence | | done].
    unfold owners in *. simpl. rewrite (count_insert _ _ _ _ _ Hdi). lia.
  - intros Hs Hlive. apply commit_inv in Hs as (res & st & t & Hout & Hs).
    destruct Hs as [(p' & -> & ->)|(code & -> & ->)]; [|done].
    destruct (handler_sync args wr (shared s) p' st t (or_introl Hout)) as [Hm1 Hb1].
    split; simpl; [congruence | by rewrite Hm1 | done].
  - intros Hs Hlive. apply commit_inv in Hs as (res & st & t & Hout & Hs).
    destruct Hs as [(p' & -> & ->)|(code & -> & ->)]; [|done].
    destruct (handler_sync args cr (shared s) p' st t (or_intror Hout)) as [Hm1 Hb1].
    split; simpl; [congruence | by rewrite Hm1 | done].
  - intros [= <-] _. split; simpl; [done | |].
    + unfold owners in *. simpl. rewrite count_app. destruct reload; simpl; lia.
    + intros (q & Hq & Hpw). apply Hd. exists q. split; [|done].
      apply elem_of_app in Hq as [?|Hq]; [done|].
      apply list_elem_of_singleton in Hq as ->. by destruct reload.
  - destruct (admins s !! i) as [p|] eqn:Hai; [|done].
    intros Hs Hlive. apply commit_inv in Hs as (res & st & t & Hout & Hs).
    destruct Hs as [(p' & -> & ->)|(code & -> & ->)]; [|done].
    destruct (admin_sync _ _ _ _ _ _ Hout) as (Hb1 & Hm1 & Hw).
    split; simpl; [congruence | |].
    + unfold owners in *. simpl.
      rewrite count_app, count_go_waitForBackend, (count_insert _ _ _ _ _ Hai). lia.
    + intros (q & Hq & Hpw). apply elem_of_insert_inv in Hq as [->|Hq]; [|apply Hd; eauto].
      destruct (Hw Hpw) as [Hold|Hz]; [|congruence].
      apply Hd. exists p. split; [|done]. apply list_elem_of_lookup. eauto.
Qed.

Lemma sync_boot skipBackend setOutput listen :
  halted (boot skipBackend setOutput listen) = None ->
  sync_inv (boot skipBackend setOutput listen).
Proof.
  destruct skipBackend, setOutput, listen; try done; intros _.
  all: split; [reflexivity | reflexivity | by intros (p & Hp & _); apply elem_of_nil in Hp].
Qed.

Lemma sys_run_live ls : forall s s',
  sys_run s ls = Some s' -> halted s' = None -> halted s = None.
Proof.
  induction ls as [|l ls IH]; intros s s'; simpl; [by intros [= <-]|].
  unfold sys_step at 1. by destruct (halted s).
Qed.

Lemma sys_run_sync ls : forall s s',
  sync_inv s -> sys_run s ls = Some s' -> halted s' = None -> sync_inv s'.
Proof.
  induction ls as [|l ls IH]; intros s s' Hsync; simpl.
  - by intros [= <-].
  - destruct (sys_step s l) as [s1|] eqn:Hstep; [|done].
    intros Hrun Hlive. apply (IH s1); [|done..].
    eapply sync_step; [done..|]. by eapply sys_run_live.
Qed.

Lemma reachable_sync s : reachable s -> halted s = None -> sync_inv s.
Proof.
  intros (skipBackend & setOutput & listen & ls & Hrun) Hlive.
  eapply sys_run_sync; [|exact Hrun|done].
  apply sync_boot. by eapply sys_run_live.
Qed.

Lemma inflight_pos (m : gmap conn relay) c r :
  m !! c = Some r -> in_call (r_pc r) = true -> 1 <= inflight m.
Proof.
  intros Hc Hin. rewrite <- (insert_delete_id m c r Hc).
  rewrite inflight_insert_fresh, Hin by apply lookup_delete_eq.
  pose proof (inflight_nonneg (delete c m)). simpl. lia.
Qed.

(** X14.  While the front runs, the busy counter is the number of relay
    tasks that are inside an outbound call: it is at least one while a call
    is in flight, so that Done never finds it at zero, and when it is zero no
    relay task is inside a call. *)
Theorem busy_counts_calls s :
  reachable s -> halted s = None ->
  rpcBusyCount (shared s) = inflight (relays s) /\
  (forall c r, relays s !! c = Some r -> in_call (r_pc r) = true ->
     1 <= rpcBusyCount (shared s)) /\
  (rpcBusyCount (shared s) = 0 ->
     forall c r, relays s !! c = Some r -> in_call (r_pc r) = false).
Proof.
  intros Hreach Hlive. destruct (reachable_sync _ Hreach Hlive) as [Hb _ _].
  split; [done|]. rewrite Hb. split.
  - intros c r. apply inflight_pos.
  - intros Hz c r. by apply inflight_zero.
Qed.

Lemma busy_counts_calls_witness :
  rpcBusyCount (shared (after one_call)) = inflight (relays (after one_call)) /\
  (forall c r, relays (after one_call) !! c = Some r -> in_call (r_pc r) = true ->
     1 <= rpcBusyCount (shared (after one_call))) /\
  (rpcBusyCount (shared (after one_call)) = 0 ->
     forall c r, relays (after one_call) !! c = Some r -> in_call (r_pc r) = false).
Proof.
  apply (busy_counts_calls (after one_call)).
  - apply after_reachable. vm_compute. eauto.
  - vm_compute. reflexivity.
Defined.

Lemma count_unique {A} (f : A -> bool) (l : list A) i j x y :
  (count f l <= 1)%nat -> l !! i = Some x -> l !! j = Some y ->
  f x = true -> f y = true -> i = j.
Proof.
  revert i j. induction l as [|a l IH]; intros i j Hc Hi Hj Hx Hy; [done|].
  simpl in Hc. destruct i as [|i], j as [|j]; simpl in *; try done.
  - inversion Hi; subst. rewrite Hx in Hc.
    pose proof (count_pos f l y (proj2 (list_elem_of_lookup _ _) (ex_intro _ j Hj)) Hy). lia.
  - inversion Hj; subst. rewrite Hy in Hc.
    pose proof (count_pos f l x (proj2 (list_elem_of_lookup _ _) (ex_intro _ i Hi)) Hx). lia.
  - f_equal. apply IH; try done. destruct (f a); lia.
Qed.

(** X15.  While the front runs, the mutex is held between steps exactly
    when one goroutine is to release it: a pending waitForBackend or an
    administrative call between its lock and its hand-over.  So waitForBackend
    finds the mutex locked, as it expects: while one is dialling the mutex is
    held, it is the only one pending, no administrative call holds the mutex,
    and the dial that succeeds stores the handle and unlocks without ending
    the process. *)
Theorem waitForBackend_owns_mutex s i :
  reachable s -> halted s = None -> dialers s !! i = Some InDial ->
  rpcMutex (shared s) = true /\
  (forall j p, dialers s !! j = Some p -> pending_dial p = true -> j = i) /\
  (forall p, p ∈ admins s -> holds_mutex p = false) /\
  exists s', sys_step s (LDialer i (DialRet None)) = Some s' /\
             halted s' = None /\ rpcMutex (shared s') = false /\
             rpcClient (shared s') = ClientOpen.
Proof.
  intros Hreach Hlive Hi. destruct (reachable_sync _ Hreach Hlive) as [_ Hm _].
  unfold owners in Hm.
  assert (Hin : InDial ∈ dialers s) by (apply list_elem_of_lookup; eauto).
  pose proof (count_pos pending_dial _ _ Hin eq_refl) as Hpos.
  assert (Hheld : rpcMutex (shared s) = true).
  { destruct (rpcMutex (shared s)); [done | simpl in Hm; lia]. }
  rewrite Hheld in Hm. simpl in Hm.
  split; [done|]. split; [|split].
  - intros j p Hj Hp. apply (count_unique pending_dial (dialers s) j i p InDial); try done. lia.
  - intros p Hp. destruct (holds_mutex p) eqn:Hh; [|done].
    pose proof (count_pos holds_mutex _ _ Hp Hh). lia.
  - unfold sys_step. rewrite Hlive, Hi.
    destruct (shared s) as [cs mu busy cl] eqn:Hsh. simpl in Hheld. subst mu.
    eexists. split; [reflexivity|]. done.
Qed.

Lemma waitForBackend_owns_mutex_witness :
  rpcMutex (shared (boot true None None)) = true /\
  (forall j p, dialers (boot true None None) !! j = Some p -> pending_dial p = true ->
     j = 0%nat) /\
  (forall p, p ∈ admins (boot true None None) -> holds_mutex p = false) /\
  exists s', sys_step (boot true None None) (LDialer 0 (DialRet None)) = Some s' /\
             halted s' = None /\ rpcMutex (shared s') = false /\
             rpcClient (shared s') = ClientOpen.
Proof.
  apply (waitForBackend_owns_mutex (boot true None None) 0%nat).
  - by exists true, None, None, [].
  - reflexivity.
  - reflexivity.
Defined.

Lemma handleConnection_waits server c addr index p resp st :
  at_lock p = true -> rpcMutex st = true ->
  handleConnection server c addr index p resp st = (Blocked, st, []).
Proof.
  intros Hp Hm. destruct st as [cs mu busy cl]. simpl in Hm. subst mu.
  unfold handleConnection. unfold_M. by destruct p, resp.
Qed.




(** ** The sockets in the table are open *)

Lemma handleConnection_listed server c addr index p resp st p1 st1 t1 :
  handleConnection server c addr index p resp st = (Ok p1, st1, t1) ->
  (p = AtOpenLock -> listed p1 = true) /\
  (listed p = true -> listed p1 = true \/ removed p1 = true) /\
  (listed p = true -> removed p = false).
Proof. intros H. relay_inv H; simpl; repeat split; try done; intros; auto. Qed.

Lemma table_step s l s' :
  inv s -> table_inv s -> sys_step s l = Some s' -> halted s' = None -> table_inv s'.
Proof.
  intros Hinv Htab. unfold sys_step.
  destruct (halted s) eqn:Hrun; [done|].
  destruct l as [tag resp|c resp|i resp|args wr|args cr|reload|i resp].
  - destruct (listeners s !! tag) as [[server p]|]; [|done].
    destruct (fresh s resp) eqn:Hfresh; [|done].
    intros Hs Hlive. apply commit_inv in Hs as (res & st & t & Hout & Hs).
    destruct (frontendListen_effect _ _ _ _ _ _ _ Hout) as (-> & _ & Hstart).
    destruct Hs as [([p' started] & -> & ->)|(code & -> & ->)]; [|done].
    destruct started as [r|]; [|done].
    destruct (Hstart _ _ eq_refl) as (c & addr & ka & -> & Hc & Hpc).
    simpl in Hfresh. apply bool_decide_eq_true_1 in Hfresh.
    intros tag' idx c' Hl. simpl in *. destruct (Htab _ _ _ Hl) as (r' & Hr' & Hlist).
    exists r'. split; [|done]. rewrite lookup_insert_ne; [done | congruence].
  - destruct (relays s !! c) as [r|] eqn:Hrel; [|done].
    intros Hs Hlive. apply commit_inv in Hs as (res & st & t & Hout & Hs).
    destruct Hs as [(p' & -> & ->)|(code & -> & ->)]; [|done].
    rewrite (inv_key _ Hinv _ _ Hrel) in Hout.
    destruct (handleConnection_effect _ _ _ _ _ _ _ _ _ _ Hout) as (_ & _ & Heff).
    destruct (handleConnection_listed _ _ _ _ _ _ _ _ _ _ Hout) as (Hopen & Hnext & Hnr).
    intros tag idx c' Hl. simpl in *.
    destruct (Heff _ _ _ Hl) as [Hold|(-> & -> & -> & Hp)].
    + destruct (Htab _ _ _ Hold) as (r' & Hr' & Hlist).
      destruct (decide (c = c')) as [<-|Hne].
      * rewrite Hrel in Hr'. inversion Hr'; subst r'.
        exists (set_pc p' r). rewrite lookup_insert_eq. split; [done|]. simpl.
        destruct (Hnext Hlist) as [?|Hrem]; [done|]. exfalso.
        destruct (inv_table _ Hinv Hrun _ _ _ Hold) as (_ & r2 & Hr2 & Htag & Hidx & _).
        rewrite Hrel in Hr2. inversion Hr2; subst r2.
        destruct (handleConnection_removed _ _ _ _ _ _ _ _ _ _ Hout Hrem) as [Hnone|[Hr _]].
        -- rewrite Htag, Hidx in Hnone. congruence.
        -- rewrite (Hnr Hlist) in Hr. done.
      * exists r'. by rewrite lookup_insert_ne.
    + exists (set_pc p' r). rewrite lookup_insert_eq. split; [done|]. simpl. auto.
  - destruct (dialers s !! i) as [p|]; [|done].
    intros Hs Hlive. apply commit_inv in Hs as (res & st & t & Hout & Hs).
    destruct (dialer_step_effect _ _ _ _ _ _ Hout) as [Hc _].
    destruct Hs as [(p' & -> & ->)|(code & -> & ->)]; [|done].
    intros tag idx c' Hl. simpl in *. rewrite Hc in Hl. exact (Htab _ _ _ Hl).
  - intros Hs Hlive. apply commit_inv in Hs as (res & st & t & Hout & Hs).
    destruct (SendPacket_effect _ _ _ _ _ _ Hout) as [Hc _].
    destruct Hs as [(p' & -> & ->)|(code & -> & ->)]; [|done].
    intros tag idx c' Hl. simpl in *. rewrite Hc in Hl. exact (Htab _ _ _ Hl).
  - intros Hs Hlive. apply commit_inv in Hs as (res & st & t & Hout & Hs).
    destruct (CloseConnection_effect _ _ _ _ _ _ Hout) as [_ Heff].
    destruct Hs as [(p' & -> & ->)|(code & -> & ->)]; [|done].
    intros tag idx c' Hl. simpl in *.
    destruct Heff as [[Hc _]|(c0 & _ & _ & Hsub)].
    + rewrite Hc in Hl. exact (Htab _ _ _ Hl).
    + destruct (Hsub _ _ _ Hl) as [Hold _]. exact (Htab _ _ _ Hold).
  - by intros [= <-] _.
  - destruct (admins s !! i) as [p|]; [|done].
    intros Hs Hlive. apply commit_inv in Hs as (res & st & t & Hout & Hs).
    destruct (admin_step_effect _ _ _ _ _ _ Hout) as [Hc _].
    destruct Hs as [(p' & -> & ->)|(code & -> & ->)]; [|done].
    intros tag idx c' Hl. simpl in *. rewrite Hc in Hl. exact (Htab _ _ _ Hl).
Qed.

Lemma sys_run_table ls : forall s s',
  inv s -> table_inv s -> sys_run s ls = Some s' -> halted s' = None -> table_inv s'.
Proof.
  induction ls as [|l ls IH]; intros s s' Hinv Htab; simpl.
  - by intros [= <-].
  - destruct (sys_step s l) as [s1|] eqn:Hstep; [|done].
    intros Hrun Hlive. apply (IH s1); [by eapply inv_step | | done..].
    eapply table_step; [done..|]. by eapply sys_run_live.
Qed.

Lemma reachable_table s : reachable s -> halted s = None -> table_inv s.
Proof.
  intros (skipBackend & setOutput & listen & ls & Hrun) Hlive.
  eapply sys_run_table; [apply inv_boot | | exact Hrun | done].
  intros tag idx c Hl. rewrite lookup_conn_empty in Hl; [done|].
  eapply map_Forall_impl; [apply boot_connections|]. by intros ? ? [_ ?].
Qed.

(** X17.  While the front runs, a socket that is in the table has never been
    closed, by anyone, and belongs to a relay task that has stored it and has
    not yet deleted its key: SendPacket writes to open sockets only, and
    CloseConnection closes sockets that were open. *)
Theorem table_sockets_open s tag idx c :
  reachable s -> halted s = None ->
  lookup_conn (connections (shared s)) tag idx = Some c ->
  closes c (history s) = 0%nat /\
  exists r, relays s !! c = Some r /\ listed (r_pc r) = true /\
            rpcName (r_server r) = tag /\ r_index r = idx.
Proof.
  intros Hreach Hlive Hl.
  pose proof (reachable_inv _ Hreach) as Hinv.
  destruct (reachable_table _ Hreach Hlive _ _ _ Hl) as (r & Hrel & Hlist).
  destruct (inv_table _ Hinv Hlive _ _ _ Hl) as (Hz & r' & Hrel' & Htag & Hidx & _).
  rewrite Hrel in Hrel'. inversion Hrel'; subst r'.
  split; [|by exists r].
  rewrite (inv_closes _ Hinv), (inv_relay _ Hinv), Hrel, Hz.
  by destruct (r_pc r).
Qed.

Lemma table_sockets_open_witness :
  closes 7%nat (history (after one_call)) = 0%nat /\
  exists r, relays (after one_call) !! 7%nat = Some r /\ listed (r_pc r) = true /\
            rpcName (r_server r) = "gpcm" /\ r_index r = 1.
Proof.
  apply (table_sockets_open (after one_call) "gpcm" 1 7%nat).
  - apply after_reachable. vm_compute. eauto.
  - vm_compute. reflexivity.
  - vm_compute. reflexivity.
Defined.


(** ** The calls of a relay task in the running front *)

Lemma relay_methods_app c h a t :
  relay_methods c (h ++ map (pair a) t) =
    relay_methods c h ++ (if is_relay c a then methods t else []).
Proof.
  induction h as [|[a' e'] h IH]; simpl.
  - induction t as [|e t IHt]; simpl; [by destruct (is_relay c a)|].
    rewrite IHt. destruct (is_relay c a); [|done]. by destruct e.
  - by rewrite IH, (assoc_L (++)).
Qed.

Lemma handleConnection_crash_calls server c addr index p resp st code st1 t1 :
  handleConnection server c addr index p resp st = (Crash code, st1, t1) -> methods t1 = [].
Proof. intros H. relay_inv H; done. Qed.

Lemma order_step s l s' : inv s -> order_inv s -> sys_step s l = Some s' -> order_inv s'.
Proof.
  intros Hinv Hord. unfold sys_step.
  destruct (halted s) eqn:Hrun; [done|].
  assert (Hquiet : forall a st L D A h t,
            (forall c, is_relay c a = false) ->
            order_inv (mkSystem st L (relays s) D A h (history s ++ map (pair a) t))).
  { intros a st L D A h t Ha c. simpl. rewrite relay_methods_app, Ha, app_nil_r. apply Hord. }
  destruct l as [tag resp|c resp|i resp|args wr|args cr|reload|i resp].
  - destruct (listeners s !! tag) as [[server p]|]; [|done].
    destruct (fresh s resp) eqn:Hfresh; [|done].
    intros Hs. apply commit_inv in Hs as (res & st & t & Hout & Hs).
    destruct (frontendListen_effect _ _ _ _ _ _ _ Hout) as (-> & _ & Hstart).
    destruct Hs as [([p' started] & -> & ->)|(code & -> & ->)]; [|by apply Hquiet].
    destruct started as [r|]; [|by apply Hquiet].
    destruct (Hstart _ _ eq_refl) as (c & addr & ka & -> & Hc & Hpc).
    simpl in Hfresh. apply bool_decide_eq_true_1 in Hfresh.
    intros c'. simpl. rewrite relay_methods_app, app_nil_r. simpl.
    rewrite Hc, lookup_insert. specialize (Hord c').
    destruct (decide (c = c')) as [<-|]; [|done].
    rewrite Hfresh in Hord. rewrite Hord, Hpc. done.
  - destruct (relays s !! c) as [r|] eqn:Hrel; [|done].
    intros Hs. apply commit_inv in Hs as (res & st & t & Hout & Hs).
    assert (Hothers : forall c', c <> c' ->
              relay_methods c' (history s ++ map (pair (ARelay c)) t)
              = relay_methods c' (history s)).
    { intros c' Hne. rewrite relay_methods_app. simpl.
      rewrite bool_decide_eq_false_2 by done. apply app_nil_r. }
    destruct Hs as [(p' & -> & ->)|(code & -> & ->)]; intros c'; simpl.
    + rewrite lookup_insert. destruct (decide (c = c')) as [<-|Hne].
      * simpl. intros ms Hms. rewrite relay_methods_app. simpl.
        rewrite bool_decide_eq_true_2 by done. rewrite <- (assoc_L (++)).
        pose proof (Hord c) as Hc. rewrite Hrel in Hc. apply Hc.
        by apply (step_ordered _ _ _ _ _ _ _ _ _ _ ms Hout).
      * rewrite (Hothers _ Hne). apply Hord.
    + destruct (decide (c = c')) as [<-|Hne]; [|rewrite (Hothers _ Hne); apply Hord].
      rewrite relay_methods_app. simpl. rewrite bool_decide_eq_true_2 by done.
      rewrite (handleConnection_crash_calls _ _ _ _ _ _ _ _ _ _ Hout), app_nil_r.
      apply Hord.
  - destruct (dialers s !! i) as [p|]; [|done].
    intros Hs. apply commit_inv in Hs as (res & st & t & Hout & Hs).
    destruct Hs as [(p' & -> & ->)|(code & -> & ->)]; by apply Hquiet.
  - intros Hs. apply commit_inv in Hs as (res & st & t & Hout & Hs).
    destruct Hs as [(p' & -> & ->)|(code & -> & ->)]; by apply Hquiet.
  - intros Hs. apply commit_inv in Hs as (res & st & t & Hout & Hs).
    destruct Hs as [(p' & -> & ->)|(code & -> & ->)]; by apply Hquiet.
  - by intros [= <-].
  - destruct (admins s !! i) as [p|]; [|done].
    intros Hs. apply commit_inv in Hs as (res & st & t & Hout & Hs).
    destruct Hs as [(p' & -> & ->)|(code & -> & ->)]; by apply Hquiet.
Qed.

Lemma reachable_order s : reachable s -> order_inv s.
Proof.
  intros (skipBackend & setOutput & listen & ls & Hrun).
  assert (Hboot : order_inv (boot skipBackend setOutput listen)).
  { intros c. by destruct skipBackend, setOutput, listen. }
  pose proof (inv_boot skipBackend setOutput listen) as Hinv.
  revert Hrun Hboot Hinv. generalize (boot skipBackend setOutput listen).
  induction ls as [|l ls IH]; intros s0; simpl.
  - by intros [= <-].
  - destruct (sys_step s0 l) as [s1|] eqn:Hstep; [|done].
    intros Hrun Hord Hinv. apply (IH s1 Hrun); [by eapply order_step | by eapply inv_step].
Qed.

(** X18.  In every state of the front, whatever the other goroutines have
    done in between, the calls each relay task has issued are NewConnection
    first, then HandlePacket any number of times, then at most one
    CloseConnection; a socket without a relay task has had no call. *)
Theorem relay_calls_ordered s c :
  reachable s ->
  ordered Unannounced (relay_methods c (history s)) = true /\
  (relays s !! c = None -> relay_methods c (history s) = []).
Proof.
  intros Hreach. pose proof (reachable_order _ Hreach c) as Hord.
  destruct (relays s !! c) as [r|]; [|by rewrite Hord].
  split; [|done]. rewrite <- (app_nil_r (relay_methods _ _)). by apply Hord.
Qed.

Lemma relay_calls_ordered_witness :
  ordered Unannounced (relay_methods 7%nat (history (after closed_by_back))) = true /\
  (relays (after closed_by_back) !! 7%nat = None ->
   relay_methods 7%nat (history (after closed_by_back)) = []).
Proof.
  apply (relay_calls_ordered (after closed_by_back) 7%nat).
  apply after_reachable. vm_compute. eauto.
Defined.


(** ** Before the back is reachable *)

Lemma dialer_cold p resp st p1 st1 t1 :
  dialer_step p resp st = (Ok p1, st1, t1) ->
  methods t1 = [] /\
  (rpcClient st1 = ClientNil ->
   rpcClient st = ClientNil /\ (pending_dial p = true -> pending_dial p1 = true)).
Proof.
  destruct st as [cs mu busy cl].
  unfold dialer_step, startBackendProcess, waitForBackend. unfold_M.
  destruct p, resp; simpl; try done.
  - destruct exe, start, reload, wait; simpl; try done; by intros [= <- <- <-].
  - destruct err; simpl; [by intros [= <- <- <-]|].
    destruct mu; simpl; [|done]. by intros [= <- <- <-].
Qed.

Lemma frontendListen_calls {S} server p resp (st : S) res st1 t1 :
  frontendListen server p resp st = (res, st1, t1) -> methods t1 = [].
Proof.
  unfold frontendListen. unfold_M.
  destruct p, resp; simpl; try (by intros [= <- <- <-]).
  - destruct err; by intros [= <- <- <-].
  - destruct err; [by intros [= <- <- <-]|].
    destruct (decide _); [destruct keepalive|]; simpl; by intros [= <- <- <-].
Qed.

Lemma handlers_wait args e st :
  rpcMutex st = true ->
  RPCFrontendPacket.SendPacket args e st = (Blocked, st, []) /\
  RPCFrontendPacket.CloseConnection args e st = (Blocked, st, []).
Proof.
  destruct st as [cs mu busy cl]. simpl. intros ->.
  unfold RPCFrontendPacket.SendPacket, RPCFrontendPacket.CloseConnection. by unfold_M.
Qed.

Lemma admin_waits p resp st :
  shutdown_of p = Some RPCFrontendPacket.SdAtLock -> rpcMutex st = true ->
  admin_step p resp st = (Blocked, st, []).
Proof.
  destruct st as [cs mu busy cl]. simpl. intros Hp ->.
  destruct p as [q|[q| |]]; simpl in Hp; inversion Hp; subst.
  all: unfold admin_step, ReloadBackend, RPCFrontendPacket.ShutdownBackend; unfold_M;
    by destruct resp.
Qed.

Lemma methods_history (h : list (actor * event)) a t :
  methods (map snd (h ++ map (pair a) t)) = methods (map snd h) ++ methods t.
Proof.
  rewrite map_app, methods_app. f_equal. f_equal.
  induction t as [|e t IH]; simpl; congruence.
Qed.

Lemma keeps_client_bind {A B} (m : M front A) (k : A -> M front B) :
  keeps_client m -> (forall a, keeps_client (k a)) -> keeps_client (m ≫= k).
Proof.
  intros Hm Hk st res st1 t1. unfold mbind, M_bind.
  destruct (m st) as [[r2 st2] t2] eqn:Hm2.
  destruct r2 as [a| |]; try (intros [= <- <- <-]; by eapply Hm).
  destruct (k a st2) as [[r3 st3] t3] eqn:Hk3.
  intros [= <- <- <-] Hnil. eapply Hm; [done|]. by eapply Hk.
Qed.

Lemma keeps_client_ret {A} (a : A) : keeps_client (mret a).
Proof. by intros st res st1 t1 [= <- <- <-]. Qed.

Lemma keeps_client_ShutdownBackend q resp :
  keeps_client (RPCFrontendPacket.ShutdownBackend q resp).
Proof.
  intros [cs mu busy cl] res st1 t1.
  unfold RPCFrontendPacket.ShutdownBackend. unfold_M.
  destruct q, resp; simpl; try (by intros [= <- <- <-]).
  - destruct mu; by intros [= <- <- <-].
  - destruct (busy =? 0); simpl; [destruct cl|]; by intros [= <- <- <-].
  - destruct err as [e|]; simpl;
      try destruct (Contains (Error e) RPCFrontendPacket.forcibly_closed); simpl;
      destruct cl; by intros [= <- <- <-].
  - destruct err; by intros [= <- <- <-].
Qed.

Lemma keeps_client_startBackendProcess reload wait resp :
  keeps_client (startBackendProcess reload wait resp).
Proof.
  intros [cs mu busy cl] res st1 t1. unfold startBackendProcess. unfold_M.
  destruct resp; simpl; try (by intros [= <- <- <-]).
  destruct exe, start, reload, wait; simpl; by intros [= <- <- <-].
Qed.

Lemma keeps_client_admin p resp : keeps_client (admin_step p resp).
Proof.
  destruct p as [q|[q| |err]]; cbn [admin_step ReloadBackend].
  - apply keeps_client_bind; [apply keeps_client_ShutdownBackend|].
    intros; apply keeps_client_ret.
  - apply keeps_client_bind; [|intros; apply keeps_client_ret].
    apply keeps_client_bind; [apply keeps_client_ShutdownBackend|].
    intros []; apply keeps_client_ret.
  - apply keeps_client_bind; [|intros; apply keeps_client_ret].
    apply keeps_client_bind; [|intros; apply keeps_client_ret].
    apply keeps_client_startBackendProcess.
  - apply keeps_client_bind; [|intros; apply keeps_client_ret].
    by intros st res st1 t1 [= <- <- <-].
Qed.

Lemma keeps_client_relay server c addr index p resp :
  keeps_client (handleConnection server c addr index p resp).
Proof. intros st res st1 t1 H. relay_inv H; done. Qed.

Lemma keeps_client_handlers args e :
  keeps_client (RPCFrontendPacket.SendPacket args e) /\
  keeps_client (RPCFrontendPacket.CloseConnection args e).
Proof.
  split; intros [cs mu busy cl] res st1 t1;
    unfold RPCFrontendPacket.SendPacket, RPCFrontendPacket.CloseConnection; unfold_M; simpl.
  - destruct mu; simpl; [by intros [= <- <- <-]|].
    destruct (lookup_conn cs _ _); simpl; by intros [= <- <- <-].
  - destruct mu; simpl; [by intros [= <- <- <-]|].
    destruct (lookup_conn cs _ _); simpl; [destruct (cs !! _)|]; simpl;
      by intros [= <- <- <-].
Qed.

Lemma cold_step s l s' :
  sync_inv s -> cold_inv s -> sys_step s l = Some s' -> halted s' = None -> cold_inv s'.
Proof.
  intros [_ Hm _] Hcold. unfold sys_step.
  destruct (halted s) eqn:Hrun; [done|].
  assert (Hheld : rpcClient (shared s) = ClientNil -> rpcMutex (shared s) = true).
  { intros Hnil. destruct (Hcold Hnil) as ((q & Hq & Hpq) & _).
    pose proof (count_pos pending_dial _ _ Hq Hpq). unfold owners in Hm.
    destruct (rpcMutex (shared s)); [done | simpl in Hm; lia]. }
  destruct l as [tag resp|c resp|i resp|args wr|args cr|reload|i resp].
  - destruct (listeners s !! tag) as [[server p]|]; [|done].
    destruct (fresh s resp) eqn:Hfresh; [|done].
    intros Hs Hlive. apply commit_inv in Hs as (res & st & t & Hout & Hs).
    pose proof (frontendListen_calls _ _ _ _ _ _ _ Hout) as Hcalls.
    destruct (frontendListen_effect _ _ _ _ _ _ _ Hout) as (-> & _ & Hstart).
    destruct Hs as [([p' started] & -> & ->)|(code & -> & ->)]; [|done].
    intros Hnil. simpl in *. destruct (Hcold Hnil) as (Hd & Hr & Ha & Hh).
    split; [done|]. split; [|split; [done|]].
    + destruct started as [r|]; [|done].
      destruct (Hstart _ _ eq_refl) as (c & addr & ka & -> & Hc & Hpc).
      intros c' r'. rewrite lookup_insert. destruct (decide (r_conn r = c')) as [<-|].
      * by intros [= <-].
      * apply Hr.
    + by rewrite methods_history, Hh, Hcalls.
  - destruct (relays s !! c) as [r|] eqn:Hrel; [|done].
    intros Hs Hlive. apply commit_inv in Hs as (res & st & t & Hout & Hs).
    destruct Hs as [(p' & -> & ->)|(code & -> & ->)]; [|done].
    intros Hnil. simpl in *. exfalso.
    pose proof (keeps_client_relay _ _ _ _ _ _ _ _ _ _ Hout Hnil) as Hnil0.
    destruct (Hcold Hnil0) as (_ & Hr & _).
    rewrite handleConnection_waits in Hout; [done | by rewrite (Hr _ _ Hrel) | auto].
  - destruct (dialers s !! i) as [p|] eqn:Hdi; [|done].
    intros Hs Hlive. apply commit_inv in Hs as (res & st & t & Hout & Hs).
    destruct Hs as [(p' & -> & ->)|(code & -> & ->)]; [|done].
    destruct (dialer_cold _ _ _ _ _ _ Hout) as [Hcalls Hcl].
    intros Hnil. simpl in *. destruct (Hcl Hnil) as [Hnil0 Hpend].
    destruct (Hcold Hnil0) as ((q & Hq & Hpq) & Hr & Ha & Hh).
    split; [|split; [done|split; [done|]]].
    + apply list_elem_of_lookup in Hq as [j Hj]. destruct (decide (i = j)) as [<-|Hne].
      * rewrite Hdi in Hj. inversion Hj; subst q. exists p'. split; [|auto].
        apply list_elem_of_lookup. exists i. apply list_lookup_insert_eq.
        by eapply lookup_lt_Some.
      * exists q. split; [|done]. apply list_elem_of_lookup. exists j.
        by rewrite list_lookup_insert_ne.
    + by rewrite methods_history, Hh, Hcalls.
  - intros Hs Hlive. apply commit_inv in Hs as (res & st & t & Hout & Hs).
    destruct Hs as [(p' & -> & ->)|(code & -> & ->)]; [|done].
    intros Hnil. simpl in *. exfalso.
    destruct (keeps_client_handlers args wr) as [Hk _].
    pose proof (Hk _ _ _ _ Hout Hnil) as Hnil0.
    destruct (handlers_wait args wr _ (Hheld Hnil0)) as [Hw _]. congruence.
  - intros Hs Hlive. apply commit_inv in Hs as (res & st & t & Hout & Hs).
    destruct Hs as [(p' & -> & ->)|(code & -> & ->)]; [|done].
    intros Hnil. simpl in *. exfalso.
    destruct (keeps_client_handlers args cr) as [_ Hk].
    pose proof (Hk _ _ _ _ Hout Hnil) as Hnil0.
    destruct (handlers_wait args cr _ (Hheld Hnil0)) as [_ Hw]. congruence.
  - intros [= <-] _ Hnil. simpl in *. destruct (Hcold Hnil) as (Hd & Hr & Ha & Hh).
    split; [done|]. split; [done|]. split; [|done].
    intros p Hp. apply elem_of_app in Hp as [?|Hp]; [by apply Ha|].
    apply list_elem_of_singleton in Hp as ->. by destruct reload.
  - destruct (admins s !! i) as [p|] eqn:Hai; [|done].
    intros Hs Hlive. apply commit_inv in Hs as (res & st & t & Hout & Hs).
    destruct Hs as [(p' & -> & ->)|(code & -> & ->)]; [|done].
    intros Hnil. simpl in *. exfalso.
    pose proof (keeps_client_admin _ _ _ _ _ _ Hout Hnil) as Hnil0.
    destruct (Hcold Hnil0) as (_ & _ & Ha & _).
    rewrite admin_waits in Hout; [done| |auto].
    apply Ha. apply list_elem_of_lookup. eauto.
Qed.

Lemma sys_run_cold ls : forall s s',
  (halted s = None -> sync_inv s) -> (halted s = None -> cold_inv s) ->
  sys_run s ls = Some s' -> halted s' = None -> cold_inv s'.
Proof.
  induction ls as [|l ls IH]; intros s s' Hsync Hcold; simpl.
  - intros [= <-]. done.
  - destruct (sys_step s l) as [s1|] eqn:Hstep; [|done].
    intros Hrun Hlive. pose proof (sys_run_live _ _ _ Hrun Hlive) as Hlive1.
    assert (Hlive0 : halted s = None).
    { unfold sys_step in Hstep. by destruct (halted s). }
    apply (IH s1); [| |done..].
    + intros _. eapply sync_step; [by apply Hsync|done..].
    + intros _. eapply cold_step; [by apply Hsync|by apply Hcold|done..].
Qed.

Lemma cold_boot skipBackend setOutput listen :
  halted (boot skipBackend setOutput listen) = None ->
  cold_inv (boot skipBackend setOutput listen).
Proof.
  destruct skipBackend, setOutput, listen; vm_compute; try done; intros _ _.
  all: (split; [eexists; split; [left|reflexivity]|]); (split; [done|]);
    (split; [|reflexivity]); intros p Hp; by apply elem_of_nil in Hp.
Qed.

Lemma reachable_cold s : reachable s -> halted s = None -> cold_inv s.
Proof.
  intros (skipBackend & setOutput & listen & ls & Hrun) Hlive.
  eapply sys_run_cold; [apply sync_boot|apply cold_boot|exact Hrun|done].
Qed.

(** X19.  No goroutine of the front has called the back before the first
    dial has succeeded.  While the RPC handle is still nil the mutex is held,
    as frontendMain left it; every client accepted so far has a relay task
    parked at its first lock, which cannot move; and no call has been
    issued.  So no call is made on the nil handle. *)
Theorem no_call_before_back_is_up s :
  reachable s -> halted s = None -> rpcClient (shared s) = ClientNil ->
  rpcMutex (shared s) = true /\
  methods (map snd (history s)) = [] /\
  (forall c r resp, relays s !! c = Some r ->
     r_pc r = AtOpenLock /\ sys_step s (LRelay c resp) = None).
Proof.
  intros Hreach Hlive Hnil.
  destruct (reachable_cold _ Hreach Hlive Hnil) as ((q & Hq & Hpq) & Hr & _ & Hh).
  destruct (reachable_sync _ Hreach Hlive) as [_ Hm _].
  assert (Hheld : rpcMutex (shared s) = true).
  { pose proof (count_pos pending_dial _ _ Hq Hpq). unfold owners in Hm.
    destruct (rpcMutex (shared s)); [done | simpl in Hm; lia]. }
  split; [done|]. split; [done|].
  intros c r resp Hrel. split; [by eapply Hr|].
  unfold sys_step. rewrite Hlive, Hrel.
  rewrite handleConnection_waits; [done | by rewrite (Hr _ _ Hrel) | done].
Qed.

Lemma no_call_before_back_is_up_witness :
  rpcMutex (shared (after early_clients)) = true /\
  methods (map snd (history (after early_clients))) = [] /\
  (forall c r resp, relays (after early_clients) !! c = Some r ->
     r_pc r = AtOpenLock /\ sys_step (after early_clients) (LRelay c resp) = None).
Proof.
  apply (no_call_before_back_is_up (after early_clients)).
  - apply after_reachable. vm_compute. eauto.
  - vm_compute. reflexivity.
  - vm_compute. reflexivity.
Defined.
